(** * cartpole-ai: the discretizer (cartpole.py) and the Q-table (qtable.py)

    A shallow embedding of the two source files and the properties of
    their functions.

    Numbers.  The program computes on Python floats and numpy float64.
    Two embeddings of them are used.  In the modules [Cartpole], [Numpy]
    and [QTable] a number is an exact rational [Q]: comparisons ([==],
    [<], [<=]) are the numeric ones ([Qeq_bool], [Qle_bool]), arithmetic
    is exact, and neither rounding nor NaN is part of the model; what is
    proved there is about the control flow, the indexing and the
    algebra of the update.  In the module [Cartpole64] a number is an
    IEEE 754 binary64 value ([spec_float] at precision 53): subtraction
    rounds, comparisons with NaN are false; the properties of
    [find_nearest] on which rounding or NaN bear are proved there.

    Errors.  A Python exception is a value of [exn]; a call that can
    raise returns a [result]. *)

From Stdlib Require Import List Arith Bool ZArith QArith Qabs Qround Lia Lqa.
From Stdlib Require Import SpecFloat.
Import ListNotations.

Local Open Scope Q_scope.
Set Warnings "-register-all".

(** ** Python values shared by both files *)

Inductive exn : Type :=
| IndexError
| KeyError
| ValueError
| TypeError
| ZeroDivisionError.

Inductive result (A : Type) : Type :=
| Ok (a : A)
| Raise (e : exn).

Arguments Ok {A} a.
Arguments Raise {A} e.

Definition is_error {A : Type} (r : result A) : bool :=
  match r with Ok _ => false | Raise _ => true end.

(** [a < b] on numbers, as a boolean. *)
Definition Qltb (a b : Q) : bool := negb (Qle_bool b a).

(** [ls[-1]]: the last element, IndexError on the empty list. *)
Definition py_last {A : Type} (ls : list A) : result A :=
  match nth_error ls (length ls - 1) with
  | Some x => Ok x
  | None => Raise IndexError
  end.

(** [ls[i]] for an index [i >= 0]: IndexError when out of range. *)
Definition py_nth {A : Type} (ls : list A) (i : nat) : result A :=
  match nth_error ls i with
  | Some x => Ok x
  | None => Raise IndexError
  end.

(** A sequence is strictly increasing when each element is below every
    later one. *)
Definition strictly_increasing (ls : list Q) : Prop :=
  forall i j x y, (i < j)%nat ->
    nth_error ls i = Some x -> nth_error ls j = Some y -> x < y.

Fixpoint strictly_increasingb (ls : list Q) : bool :=
  match ls with
  | [] => true
  | x :: tl =>
      match tl with
      | [] => true
      | y :: _ => Qltb x y && strictly_increasingb tl
      end
  end.

(** ** cartpole.py *)

Module Cartpole.

(** What one call of [find_nearest] does: return a number, run off the
    end of the [while] loop (Python then returns [None]), raise, or still
    be looping when the fuel of the model is spent. *)
Inductive outcome : Type :=
| Returns (v : Q)
| ReturnsNone
| Raises (e : exn)
| OutOfFuel.

(** The inner function [get_closer(a, b)], closed over [target]. *)
Definition get_closer (target a b : Q) : Q :=
  let diff_a := Qabs (target - a) in
  let diff_b := Qabs (target - b) in
  if Qle_bool diff_a diff_b then a else b.

(** The [while start < end] loop of [find_nearest]; one unit of fuel per
    iteration. *)
Fixpoint find_nearest_loop (fuel : nat) (ls : list Q) (target : Q)
    (start end_ : nat) : outcome :=
  match fuel with
  | O => OutOfFuel
  | S fuel' =>
      if (start <? end_)%nat then
        let mid := ((start + end_) / 2)%nat in
        match nth_error ls mid with
        | None => Raises IndexError
        | Some ls_mid =>
            if Qeq_bool ls_mid target then Returns ls_mid
            else if Qltb ls_mid target then
              (* ls[mid] or its right neighbour *)
              if (mid <? length ls - 1)%nat then
                match nth_error ls (mid + 1) with
                | None => Raises IndexError
                | Some ls_next =>
                    if Qltb target ls_next
                    then Returns (get_closer target ls_mid ls_next)
                    else find_nearest_loop fuel' ls target mid end_
                end
              else find_nearest_loop fuel' ls target mid end_
            else
              (* ls[mid] or its left neighbour *)
              if (0 <? mid)%nat then
                match nth_error ls (mid - 1) with
                | None => Raises IndexError
                | Some ls_prev =>
                    if Qltb ls_prev target
                    then Returns (get_closer target ls_mid ls_prev)
                    else find_nearest_loop fuel' ls target start mid
                end
              else find_nearest_loop fuel' ls target start mid
        end
      else ReturnsNone
  end.

(** [find_nearest(ls, target)] with the loop given [fuel] iterations. *)
Definition find_nearest_fuel (fuel : nat) (ls : list Q) (target : Q)
    : outcome :=
  match py_last ls with
  | Raise e => Raises e
  | Ok ls_last =>
      if Qle_bool ls_last target then Returns ls_last
      else
        match py_nth ls 0 with
        | Raise e => Raises e
        | Ok ls_first =>
            if Qle_bool target ls_first then Returns ls_first
            else find_nearest_loop fuel ls target 0 (length ls)
        end
  end.

(** The loop never needs more iterations than the list has elements
    (proved below), so this is [find_nearest]. *)
Definition find_nearest (ls : list Q) (target : Q) : outcome :=
  find_nearest_fuel (length ls) ls target.

(** What the loop of [find_nearest] can return: an element equal to the
    target, or the closer one of two neighbours that enclose the target,
    the probed one given first to [get_closer]. *)
Definition bracketed (ls : list Q) (target v : Q) : Prop :=
  (In v ls /\ v == target) \/
  exists i a b,
    nth_error ls i = Some a /\ nth_error ls (S i) = Some b /\
    a < target /\ target < b /\
    (v = get_closer target a b \/ v = get_closer target b a).

(** [numpy.arange(start, stop, step)] on floats, after numpy's
    documentation (numpy is not part of this repository): the values
    [start + i * step] for [0 <= i < ceil((stop - start) / step)], none
    when that bound is not positive; a zero step is a division by zero
    and raises ZeroDivisionError.  The length and the values are taken
    in exact arithmetic; numpy rounds both, and can give one element
    more or less.  The properties below are about the number of
    domains and about when a sequence is empty, which rounding does not
    change. *)
Definition arange_values (start stop step : Q) : list Q :=
  let n := Z.to_nat (Qceiling ((stop - start) / step)) in
  map (fun i => start + inject_Z (Z.of_nat i) * step) (seq 0 n).

Definition numpy_arange (start stop step : Q) : result (list Q) :=
  if Qeq_bool step 0 then Raise ZeroDivisionError
  else Ok (arange_values start stop step).

(** The inner loop: [for i in arange: discrete_states.append(i)]. *)
Definition append_all (values : list Q) : list Q :=
  fold_left (fun discrete_states i => discrete_states ++ [i]) values [].

(** The outer loop of [discretize_observation_space], from position
    [idx] of the enumeration on. *)
Fixpoint discretize_from (idx : nat) (observation_space_bounds : list (Q * Q))
    (steps : list Q) (discrete_space : list (list Q))
    : result (list (list Q)) :=
  match observation_space_bounds with
  | [] => Ok discrete_space
  | bounds :: rest =>
      match py_nth steps idx with
      | Raise e => Raise e
      | Ok step =>
          match numpy_arange (fst bounds) (snd bounds) step with
          | Raise e => Raise e
          | Ok values =>
              discretize_from (S idx) rest steps
                (discrete_space ++ [append_all values])
          end
      end
  end.

Definition discretize_observation_space
    (observation_space_bounds : list (Q * Q)) (steps : list Q)
    : result (list (list Q)) :=
  discretize_from 0 observation_space_bounds steps [].

(** What a call of [discretize_state] does: return the tuple (a
    component is [None] where [find_nearest] returned [None]), raise, or
    run out of the fuel of the model. *)
Inductive tuple_outcome : Type :=
| ReturnsTuple (t : list (option Q))
| RaisesIn (e : exn)
| OutOfFuelIn.

(** The loop of [discretize_state], from position [idx] of the
    enumeration of [state] on. *)
Fixpoint discretize_state_from (idx : nat) (state : list Q)
    (observation_space : list (list Q)) (discretized_state : list (option Q))
    : tuple_outcome :=
  match state with
  | [] => ReturnsTuple discretized_state
  | factor :: rest =>
      match py_nth observation_space idx with
      | Raise e => RaisesIn e
      | Ok domain =>
          match find_nearest domain factor with
          | Returns v =>
              discretize_state_from (S idx) rest observation_space
                (discretized_state ++ [Some v])
          | ReturnsNone =>
              discretize_state_from (S idx) rest observation_space
                (discretized_state ++ [None])
          | Raises e => RaisesIn e
          | OutOfFuel => OutOfFuelIn
          end
      end
  end.

Definition discretize_state (state : list Q)
    (observation_space : list (list Q)) : tuple_outcome :=
  discretize_state_from 0 state observation_space [].

End Cartpole.

(** ** cartpole.py on binary64

    [find_nearest] and [discretize_state] again, on IEEE 754 binary64
    numbers as the Standard Library specifies them: [spec_float] with
    signed zeros, infinities and NaN, [SFsub] rounding to nearest even
    at precision 53, and [SFeqb], [SFltb], [SFleb] false whenever an
    argument is NaN.  The control flow is that of the module
    [Cartpole]; only the numbers differ.

    The floats of the program are the values of [spec_float] in
    normal form ([valid_binary prec emax], what [float_of] and [SFsub]
    produce); on these [SFcompare] is the numeric comparison. *)

Module Cartpole64.

Definition prec : Z := 53.
Definition emax : Z := 1024.

(** The float [m * 2 ^ e], rounded if need be; [nan] is NaN. *)
Definition float_of (m e : Z) : spec_float :=
  binary_normalize prec emax m e false.

Definition nan : spec_float := S754_nan.

Definition is_nan (x : spec_float) : bool :=
  match x with
  | S754_nan => true
  | _ => false
  end.

(** The rational a finite float stands for (0 for the others). *)
Definition to_Q (x : spec_float) : Q :=
  match x with
  | S754_finite s m e =>
      (if s then - inject_Z (Zpos m) else inject_Z (Zpos m)) * 2 ^ e
  | _ => 0
  end.

Inductive outcome : Type :=
| Returns (v : spec_float)
| ReturnsNone
| Raises (e : exn)
| OutOfFuel.

(** [get_closer(a, b)]: [abs(target - a)] and [abs(target - b)] are
    the rounded differences. *)
Definition get_closer (target a b : spec_float) : spec_float :=
  let diff_a := SFabs (SFsub prec emax target a) in
  let diff_b := SFabs (SFsub prec emax target b) in
  if SFleb diff_a diff_b then a else b.

Fixpoint find_nearest_loop (fuel : nat) (ls : list spec_float)
    (target : spec_float) (start end_ : nat) : outcome :=
  match fuel with
  | O => OutOfFuel
  | S fuel' =>
      if (start <? end_)%nat then
        let mid := ((start + end_) / 2)%nat in
        match nth_error ls mid with
        | None => Raises IndexError
        | Some ls_mid =>
            if SFeqb ls_mid target then Returns ls_mid
            else if SFltb ls_mid target then
              if (mid <? length ls - 1)%nat then
                match nth_error ls (mid + 1) with
                | None => Raises IndexError
                | Some ls_next =>
                    if SFltb target ls_next
                    then Returns (get_closer target ls_mid ls_next)
                    else find_nearest_loop fuel' ls target mid end_
                end
              else find_nearest_loop fuel' ls target mid end_
            else
              if (0 <? mid)%nat then
                match nth_error ls (mid - 1) with
                | None => Raises IndexError
                | Some ls_prev =>
                    if SFltb ls_prev target
                    then Returns (get_closer target ls_mid ls_prev)
                    else find_nearest_loop fuel' ls target start mid
                end
              else find_nearest_loop fuel' ls target start mid
        end
      else ReturnsNone
  end.

(** [target >= ls[-1]] is [ls[-1] <= target], false when either is NaN. *)
Definition find_nearest_fuel (fuel : nat) (ls : list spec_float)
    (target : spec_float) : outcome :=
  match py_last ls with
  | Raise e => Raises e
  | Ok ls_last =>
      if SFleb ls_last target then Returns ls_last
      else
        match py_nth ls 0 with
        | Raise e => Raises e
        | Ok ls_first =>
            if SFleb target ls_first then Returns ls_first
            else find_nearest_loop fuel ls target 0 (length ls)
        end
  end.

(** One iteration more than the list has elements is always enough
    (proved below): the last one finds the loop condition false. *)
Definition find_nearest (ls : list spec_float) (target : spec_float)
    : outcome :=
  find_nearest_fuel (S (length ls)) ls target.

Definition strictly_increasing (ls : list spec_float) : Prop :=
  forall i j x y, (i < j)%nat ->
    nth_error ls i = Some x -> nth_error ls j = Some y -> SFltb x y = true.

Fixpoint strictly_increasingb (ls : list spec_float) : bool :=
  match ls with
  | [] => true
  | x :: tl =>
      match tl with
      | [] => true
      | y :: _ => SFltb x y && strictly_increasingb tl
      end
  end.

(** The distance of [x] from the target as the program computes it:
    the rounded difference, without its sign. *)
Definition distance (target x : spec_float) : spec_float :=
  SFabs (SFsub prec emax target x).

(** What the loop of [find_nearest] is to return: an element equal to
    the target, or one of two neighbours that enclose the target, its
    computed distance from the target at most that of the other. *)
Definition bracketed (ls : list spec_float) (target v : spec_float) : Prop :=
  (In v ls /\ SFeqb v target = true) \/
  exists i a b,
    nth_error ls i = Some a /\ nth_error ls (S i) = Some b /\
    SFltb a target = true /\ SFltb target b = true /\
    ((v = a /\ SFleb (distance target a) (distance target b) = true) \/
     (v = b /\ SFleb (distance target b) (distance target a) = true)).

(** No element is NaN. *)
Definition numbers (ls : list spec_float) : Prop :=
  Forall (fun x => is_nan x = false) ls.

(** The position of a float that is not NaN in the order of the
    extended reals, as a triple compared lexicographically: the sign
    class, then exponent and mantissa (negated below zero). *)
Definition rank (x : spec_float) : Z * Z * Z :=
  match x with
  | S754_nan => (0, 0, 0)%Z
  | S754_zero _ => (0, 0, 0)%Z
  | S754_infinity true => (-2, 0, 0)%Z
  | S754_infinity false => (2, 0, 0)%Z
  | S754_finite true m e => (-1, - e, - Zpos m)%Z
  | S754_finite false m e => (1, e, Zpos m)%Z
  end.

Definition rank_lt (a b : Z * Z * Z) : Prop :=
  let '(a1, a2, a3) := a in
  let '(b1, b2, b3) := b in
  (a1 < b1 \/ (a1 = b1 /\ (a2 < b2 \/ (a2 = b2 /\ a3 < b3))))%Z.

Definition rank_compare (a b : Z * Z * Z) : comparison :=
  let '(a1, a2, a3) := a in
  let '(b1, b2, b3) := b in
  match (a1 ?= b1)%Z with
  | Eq => match (a2 ?= b2)%Z with Eq => (a3 ?= b3)%Z | c => c end
  | c => c
  end.

(** [discretize_state], with [find_nearest] on binary64. *)
Inductive tuple_outcome : Type :=
| ReturnsTuple (t : list (option spec_float))
| RaisesIn (e : exn)
| OutOfFuelIn.

Fixpoint discretize_state_from (idx : nat) (state : list spec_float)
    (observation_space : list (list spec_float))
    (discretized_state : list (option spec_float)) : tuple_outcome :=
  match state with
  | [] => ReturnsTuple discretized_state
  | factor :: rest =>
      match py_nth observation_space idx with
      | Raise e => RaisesIn e
      | Ok domain =>
          match find_nearest domain factor with
          | Returns v =>
              discretize_state_from (S idx) rest observation_space
                (discretized_state ++ [Some v])
          | ReturnsNone =>
              discretize_state_from (S idx) rest observation_space
                (discretized_state ++ [None])
          | Raises e => RaisesIn e
          | OutOfFuel => OutOfFuelIn
          end
      end
  end.

Definition discretize_state (state : list spec_float)
    (observation_space : list (list spec_float)) : tuple_outcome :=
  discretize_state_from 0 state observation_space [].

End Cartpole64.

(** Order facts on ranks, by linear arithmetic on their components. *)
Ltac rank_lia :=
  repeat match goal with
  | H : context [Cartpole64.rank ?x] |- _ =>
      destruct (Cartpole64.rank x) as [[? ?] ?]
  | |- context [Cartpole64.rank ?x] =>
      destruct (Cartpole64.rank x) as [[? ?] ?]
  end;
  unfold Cartpole64.rank_lt in *; lia.

(** ** numpy arrays, as far as qtable.py uses them *)

Module Numpy.

(** An n-dimensional array as nested lists; a 0-dimensional one is a
    number. *)
Inductive ndarray : Type :=
| Scalar (x : Q)
| Arr (items : list ndarray).

(** [numpy.zeros(shape)]. *)
Fixpoint zeros (shape : list nat) : ndarray :=
  match shape with
  | [] => Scalar 0
  | n :: rest => Arr (repeat (zeros rest) n)
  end.

(** The array is rectangular, of the given shape. *)
Fixpoint has_shape (shape : list nat) (a : ndarray) : Prop :=
  match shape, a with
  | [], Scalar _ => True
  | n :: rest, Arr items => length items = n /\ Forall (has_shape rest) items
  | _, _ => False
  end.

(** [a[i]] for an index [i >= 0]. *)
Definition getitem (a : ndarray) (i : nat) : result ndarray :=
  match a with
  | Scalar _ => Raise IndexError
  | Arr items => py_nth items i
  end.

(** The cell or sub-array at an index path, if the path is in range. *)
Fixpoint get_path (a : ndarray) (path : list nat) : option ndarray :=
  match path with
  | [] => Some a
  | i :: rest =>
      match a with
      | Scalar _ => None
      | Arr items =>
          match nth_error items i with
          | Some sub => get_path sub rest
          | None => None
          end
      end
  end.

(** Replace element [i] of a list; out of range leaves it as it is. *)
Fixpoint list_update {A : Type} (l : list A) (i : nat) (f : A -> A) : list A :=
  match l, i with
  | [], _ => []
  | x :: tl, O => f x :: tl
  | x :: tl, S i' => x :: list_update tl i' f
  end.

(** The array with the part at [path] replaced by [v]. *)
Fixpoint set_path (a : ndarray) (path : list nat) (v : ndarray) : ndarray :=
  match path with
  | [] => v
  | i :: rest =>
      match a with
      | Scalar x => Scalar x
      | Arr items => Arr (list_update items i (fun sub => set_path sub rest v))
      end
  end.

(** A scalar operation broadcast over an array. *)
Fixpoint nd_map (f : Q -> Q) (a : ndarray) : ndarray :=
  match a with
  | Scalar x => Scalar (f x)
  | Arr items => Arr (map (nd_map f) items)
  end.

(** The numbers of a 1-dimensional array. *)
Fixpoint scalars (items : list ndarray) : option (list Q) :=
  match items with
  | [] => Some []
  | Scalar x :: tl =>
      match scalars tl with
      | Some xs => Some (x :: xs)
      | None => None
      end
  | Arr _ :: _ => None
  end.

(** Scan for the maximum: [best] at [best_idx] so far, [idx] the position
    of the head of [xs].  Only a strictly larger entry replaces the
    current best, so the first occurrence of the maximum is kept. *)
Fixpoint argmax_from (best_idx : nat) (best : Q) (idx : nat) (xs : list Q)
    : nat :=
  match xs with
  | [] => best_idx
  | x :: tl =>
      if Qltb best x then argmax_from idx x (S idx) tl
      else argmax_from best_idx best (S idx) tl
  end.

(** [xs.argmax(axis = 0)] on a 1-dimensional array, after numpy's
    documentation: the index of the first occurrence of the maximum;
    ValueError on an empty array. *)
Definition argmax (xs : list Q) : result nat :=
  match xs with
  | [] => Raise ValueError
  | x :: tl => Ok (argmax_from 0 x 1 tl)
  end.

End Numpy.

(** ** qtable.py *)

Module QTable.

Import Numpy.

(** A Factor is a number, a State the tuple of its factors; the driver's
    actions are the integers [range(env.action_space.n)]. *)
Abbreviation Factor := Q (only parsing).
Abbreviation State := (list Q) (only parsing).
Abbreviation Action := Z (only parsing).

(** A Python dict as its list of bindings, the latest first: a lookup
    returns the latest value bound to an equal key, as a dict whose
    later insertions overwrite earlier ones does. *)
Definition dict (K : Type) : Type := list (K * nat).

(** [d[k] = v] *)
Definition dict_set {K : Type} (k : K) (v : nat) (d : dict K) : dict K :=
  (k, v) :: d.

(** [d[k]] under the key equality [eqb], KeyError when no key equals
    [k]. *)
Fixpoint dict_get {K : Type} (eqb : K -> K -> bool) (k : K) (d : dict K)
    : result nat :=
  match d with
  | [] => Raise KeyError
  | (k', v) :: tl => if eqb k' k then Ok v else dict_get eqb k tl
  end.

(** [{key : idx for idx, key in enumerate(keys)}], from position [idx]
    on, added to [d]. *)
Fixpoint dict_of_enumerate {K : Type} (idx : nat) (keys : list K)
    (d : dict K) : dict K :=
  match keys with
  | [] => d
  | k :: tl => dict_of_enumerate (S idx) tl (dict_set k idx d)
  end.

(** [{key : idx for idx, key in enumerate(keys)}]. *)
Definition index_of {K : Type} (keys : list K) : dict K :=
  dict_of_enumerate 0 keys [].

Record QTable : Type := mkQTable {
  _table : ndarray;
  _states_idxs : list (dict Factor);
  _actions_idxs : dict Action;
  observation_space : list (list Factor);
  actions : list Action;
  learning_rate : Q;
  discount_rate : Q;
  exploration_decay : Q;
  exploration_rate : Q
}.

(** [QTable.__init__]. *)
Definition __init__ (observation_space : list (list Factor))
    (actions : list Action)
    (learning_rate discount_rate exploration_decay : Q) : QTable :=
  {| _table :=
       zeros (map (fun discrete_states => length discrete_states)
                  observation_space ++ [length actions]);
     _states_idxs :=
       map (fun discrete_states => index_of discrete_states)
           observation_space;
     _actions_idxs := index_of actions;
     observation_space := observation_space;
     actions := actions;
     learning_rate := learning_rate;
     discount_rate := discount_rate;
     exploration_decay := exploration_decay;
     exploration_rate := 1 |}.

(** The defaults of the optional arguments. *)
Definition default_learning_rate : Q := 5 # 100.
Definition default_discount_rate : Q := 99 # 100.
Definition default_exploration_decay : Q := 1 # 100.

(** Indexing a numpy array gives a view: the indices taken from
    [self._table] so far ([v_path]) and the part of the table they reach
    ([v_data]).  An assignment to an element of a view writes into the
    table at that path. *)
Record view : Type := mkView {
  v_path : list nat;
  v_data : ndarray
}.

(** The loop of [_get_state_values], from position [idx] of the
    enumeration of [state] on. *)
Fixpoint drill (self : QTable) (idx : nat) (state : State) (dim : view)
    : result view :=
  match state with
  | [] => Ok dim
  | single_state :: rest =>
      match py_nth (_states_idxs self) idx with
      | Raise e => Raise e
      | Ok idxs =>
          match dict_get Qeq_bool single_state idxs with
          | Raise e => Raise e
          | Ok i =>
              match getitem (v_data dim) i with
              | Raise e => Raise e
              | Ok sub => drill self (S idx) rest (mkView (v_path dim ++ [i]) sub)
              end
          end
      end
  end.

Definition _get_state_values (self : QTable) (state : State) : result view :=
  drill self 0 state (mkView [] (_table self)).

Definition _get_qvalue (self : QTable) (state : State) (action : Action)
    : result ndarray :=
  match _get_state_values self state with
  | Raise e => Raise e
  | Ok action_qvalues =>
      match dict_get Z.eqb action (_actions_idxs self) with
      | Raise e => Raise e
      | Ok a_idx => getitem (v_data action_qvalues) a_idx
      end
  end.

(** [_get_max_action].  [argmax(axis = 0)] of an array of more than one
    dimension is an array of indices, which [self.actions[max_idx]]
    rejects with a TypeError; a 0-dimensional array has no axis 0. *)
Definition _get_max_action (self : QTable) (state : State)
    : result (Action * Q) :=
  match _get_state_values self state with
  | Raise e => Raise e
  | Ok action_qvalues =>
      match v_data action_qvalues with
      | Scalar _ => Raise ValueError
      | Arr items =>
          match scalars items with
          | None => Raise TypeError
          | Some qvalues =>
              match argmax qvalues with
              | Raise e => Raise e
              | Ok max_idx =>
                  match py_nth (actions self) max_idx with
                  | Raise e => Raise e
                  | Ok a =>
                      match py_nth qvalues max_idx with
                      | Raise e => Raise e
                      | Ok q => Ok (a, q)
                      end
                  end
              end
          end
      end
  end.

(** The methods that assign to an attribute of [self], or to a cell of
    its table, take the object and give it back with the outcome. *)
Definition M (A : Type) : Type := QTable -> result A * QTable.

Definition set_table (t : ndarray) (self : QTable) : QTable :=
  {| _table := t;
     _states_idxs := _states_idxs self;
     _actions_idxs := _actions_idxs self;
     observation_space := observation_space self;
     actions := actions self;
     learning_rate := learning_rate self;
     discount_rate := discount_rate self;
     exploration_decay := exploration_decay self;
     exploration_rate := exploration_rate self |}.

Definition set_exploration_rate (r : Q) (self : QTable) : QTable :=
  {| _table := _table self;
     _states_idxs := _states_idxs self;
     _actions_idxs := _actions_idxs self;
     observation_space := observation_space self;
     actions := actions self;
     learning_rate := learning_rate self;
     discount_rate := discount_rate self;
     exploration_decay := exploration_decay self;
     exploration_rate := r |}.

(** Two arrays have the same shape. *)
Fixpoint same_shape (a b : ndarray) : bool :=
  match a, b with
  | Scalar _, Scalar _ => true
  | Arr xs, Arr ys =>
      (fix all2 (xs ys : list ndarray) : bool :=
         match xs, ys with
         | [], [] => true
         | x :: xs', y :: ys' => same_shape x y && all2 xs' ys'
         | _, _ => false
         end) xs ys
  | _, _ => false
  end.

(** What [target[...] = new_value] stores in place of [target]: a number
    fills it, an array of its shape replaces it.  (numpy also repeats an
    array of lower rank along the leading axes; [process_step] never
    passes one, and that case is a ValueError here.) *)
Definition assigned (target new_value : ndarray) : result ndarray :=
  match new_value with
  | Scalar x => Ok (nd_map (fun _ => x) target)
  | Arr _ =>
      if same_shape target new_value then Ok new_value else Raise ValueError
  end.

Definition _update_qvalue (state : State) (action : Action)
    (new_value : ndarray) : M unit :=
  fun self =>
    match _get_state_values self state with
    | Raise e => (Raise e, self)
    | Ok action_qvalues =>
        match dict_get Z.eqb action (_actions_idxs self) with
        | Raise e => (Raise e, self)
        | Ok a_idx =>
            match getitem (v_data action_qvalues) a_idx with
            | Raise e => (Raise e, self)
            | Ok target =>
                match assigned target new_value with
                | Raise e => (Raise e, self)
                | Ok stored =>
                    (Ok tt,
                     set_table
                       (set_path (_table self)
                          (v_path action_qvalues ++ [a_idx]) stored)
                       self)
                end
            end
        end
    end.

Definition process_step (state : State) (action : Action)
    (new_state : State) (reward : Q) : M unit :=
  fun self =>
    match _get_qvalue self state action with
    | Raise e => (Raise e, self)
    | Ok old_qvalue =>
        match _get_max_action self new_state with
        | Raise e => (Raise e, self)
        | Ok best =>
            let new_qvalue := reward + discount_rate self * snd best in
            _update_qvalue state action
              (nd_map (fun old => (1 - learning_rate self) * old
                                  + learning_rate self * new_qvalue)
                      old_qvalue)
              self
        end
    end.

Definition update_exploration_rate : M unit :=
  fun self =>
    (Ok tt,
     set_exploration_rate
       (exploration_rate self * (1 - exploration_decay self)) self).

(** [n] calls of [update_exploration_rate] in a row. *)
Fixpoint decay_n (n : nat) (self : QTable) : QTable :=
  match n with
  | O => self
  | S n' => decay_n n' (snd (update_exploration_rate self))
  end.

(** [decide_action].  The two draws of the random module are arguments:
    [r] is the value of [random.random()], and [random.choice] takes the
    element at position [k mod len] for its draw [k], or raises an
    IndexError on an empty list. *)
Definition random_choice {A : Type} (k : nat) (seq : list A) : result A :=
  match seq with
  | [] => Raise IndexError
  | _ :: _ => py_nth seq (k mod length seq)
  end.

Definition decide_action (r : Q) (k : nat) (self : QTable) (state : State)
    : result Action :=
  if Qle_bool r (exploration_rate self) then
    random_choice k (actions self)
  else
    match _get_max_action self state with
    | Raise e => Raise e
    | Ok best => Ok (fst best)
    end.

(** *** What the properties below speak of *)

(** The object is as [__init__] leaves it and [process_step] keeps it:
    the index dicts are those of the domains and of the actions, the
    table has one axis per domain and a last one over the actions, and
    the actions are a set (no action is listed twice). *)
Record well_formed (self : QTable) : Prop := {
  wf_states_idxs :
    _states_idxs self = map index_of (observation_space self);
  wf_actions_idxs : _actions_idxs self = index_of (actions self);
  wf_shape :
    has_shape (map (@length Factor) (observation_space self)
               ++ [length (actions self)])
              (_table self);
  wf_actions : NoDup (actions self)
}.

(** [x] is a value of the domain, under the numeric equality the dict
    lookup uses. *)
Definition in_domain (x : Factor) (domain : list Factor) : Prop :=
  exists y, In y domain /\ y == x.

(** A state key of the table: one factor per domain, each a value of its
    domain. *)
Definition state_in_domain (self : QTable) (state : State) : Prop :=
  Forall2 in_domain state (observation_space self).

(** Some factor of the state key is not a value of its domain. *)
Definition state_out_of_domain (self : QTable) (state : State) : Prop :=
  exists j x domain,
    nth_error state j = Some x /\
    nth_error (observation_space self) j = Some domain /\
    ~ in_domain x domain.

(** The positions the factors of a state key have in their domains. *)
Fixpoint key_indices (idxs : list (dict Factor)) (state : State)
    {struct state} : result (list nat) :=
  match state with
  | [] => Ok []
  | single_state :: rest =>
      match idxs with
      | [] => Raise IndexError
      | d :: ds =>
          match dict_get Qeq_bool single_state d with
          | Raise e => Raise e
          | Ok i =>
              match key_indices ds rest with
              | Raise e => Raise e
              | Ok path => Ok (i :: path)
              end
          end
      end
  end.

(** The index tuple of the cell of a state-action pair. *)
Definition cell_index (self : QTable) (state : State) (action : Action)
    : result (list nat) :=
  match key_indices (_states_idxs self) state with
  | Raise e => Raise e
  | Ok path =>
      match dict_get Z.eqb action (_actions_idxs self) with
      | Raise e => Raise e
      | Ok a_idx => Ok (path ++ [a_idx])
      end
  end.

(** [m] is the maximum over all actions of the value stored at a state. *)
Definition max_over_actions (self : QTable) (state : State) (m : Q) : Prop :=
  (exists a, In a (actions self) /\
             _get_qvalue self state a = Ok (Scalar m)) /\
  (forall a, In a (actions self) ->
     exists v, _get_qvalue self state a = Ok (Scalar v) /\ v <= m).

(** The table of the specification's worked example: one factor with
    domain [0, 1, 2], two actions, learning rate 0.5, discount rate 1,
    and the values [2, 4] in the row of state 1. *)
Definition example_table : QTable :=
  set_table
    (Arr [Arr [Scalar 0; Scalar 0]; Arr [Scalar 2; Scalar 4];
          Arr [Scalar 0; Scalar 0]])
    (__init__ [[0; 1; 2]] [0%Z; 1%Z] (1 # 2) 1 default_exploration_decay).

End QTable.

(** * Properties *)

(** ** Numbers and lists *)

Lemma Qltb_true (a b : Q) : Qltb a b = true <-> a < b.
Proof.
  unfold Qltb. rewrite negb_true_iff.
  destruct (Qle_bool b a) eqn:E.
  - apply Qle_bool_iff in E. split; [discriminate | intros; lra].
  - split; auto. intros _. destruct (Qlt_le_dec a b) as [H | H]; auto.
    apply Qle_bool_iff in H. congruence.
Qed.

Lemma Qltb_false (a b : Q) : Qltb a b = false <-> b <= a.
Proof.
  unfold Qltb. rewrite negb_false_iff. apply Qle_bool_iff.
Qed.

Lemma Qle_bool_false (a b : Q) : Qle_bool a b = false <-> b < a.
Proof.
  rewrite <- Qltb_true. unfold Qltb. rewrite negb_true_iff. tauto.
Qed.

Lemma Qabs_diff_below (t a x : Q) :
  x <= a -> a <= t -> Qabs (t - a) <= Qabs (t - x).
Proof.
  intros. rewrite (Qabs_pos (t - a)), (Qabs_pos (t - x)); lra.
Qed.

Lemma Qabs_diff_above (t b x : Q) :
  t <= b -> b <= x -> Qabs (t - b) <= Qabs (t - x).
Proof.
  intros. rewrite (Qabs_neg (t - b)), (Qabs_neg (t - x)); lra.
Qed.

Lemma half_bounds (s e : nat) :
  (s < e)%nat -> (s <= (s + e) / 2 < e)%nat /\ (s + 2 <= e -> s < (s + e) / 2)%nat.
Proof.
  intros H.
  pose proof (Nat.div_mod_eq (s + e) 2) as E.
  pose proof (Nat.mod_upper_bound (s + e) 2) as U.
  lia.
Qed.

Lemma strictly_increasing_le (ls : list Q) (i j : nat) (x y : Q) :
  strictly_increasing ls -> (i <= j)%nat ->
  nth_error ls i = Some x -> nth_error ls j = Some y -> x <= y.
Proof.
  intros Hs Hij Hi Hj.
  destruct (Nat.eq_dec i j) as [-> | Hne].
  - rewrite Hi in Hj. injection Hj as <-. lra.
  - apply Qlt_le_weak. apply (Hs i j); auto. lia.
Qed.

Lemma strictly_increasingb_sound (ls : list Q) :
  strictly_increasingb ls = true -> strictly_increasing ls.
Proof.
  induction ls as [| x tl IH]; intros Hb i j a b Hij Hi Hj.
  - destruct i; discriminate.
  - assert (Htl : strictly_increasingb tl = true /\
                  forall y, nth_error tl 0 = Some y -> x < y).
    { simpl in Hb. destruct tl as [| y tl']; [split; [reflexivity | discriminate] |].
      apply andb_true_iff in Hb. destruct Hb as [H1 H2].
      split; auto. intros y0 E. injection E as <-. now apply Qltb_true. }
    destruct Htl as [Hbt Hhd]. specialize (IH Hbt).
    destruct j as [| j]; [lia |].
    destruct i as [| i]; simpl in Hi, Hj.
    + injection Hi as <-.
      destruct (nth_error tl 0) as [y0 |] eqn:E0.
      * specialize (Hhd y0 eq_refl).
        assert (y0 <= b) by (apply (strictly_increasing_le tl 0 j); auto; lia).
        lra.
      * destruct tl; [destruct j |]; discriminate.
    + apply (IH i j); auto. lia.
Qed.

(** ** find_nearest *)

Section FindNearest.
Import Cartpole.

Variable ls : list Q.
Variable target : Q.

Lemma get_closer_cases (a b : Q) :
  (get_closer target a b = a \/ get_closer target a b = b) /\
  Qabs (target - get_closer target a b) <= Qabs (target - a) /\
  Qabs (target - get_closer target a b) <= Qabs (target - b).
Proof.
  unfold get_closer.
  destruct (Qle_bool (Qabs (target - a)) (Qabs (target - b))) eqn:E.
  - apply Qle_bool_iff in E. repeat split; auto. lra.
  - apply Qle_bool_false in E. repeat split; auto; lra.
Qed.

(** The loop invariant: [ls[start] < target], [target < ls[end]] unless
    [end] is the length, and [target] below the last element.  Under
    it the loop returns, within [end - start] iterations. *)
Lemma find_nearest_loop_returns (fuel : nat) :
  forall start end_ x z,
  (start < end_ <= length ls)%nat ->
  (end_ - start <= fuel)%nat ->
  nth_error ls start = Some x -> x < target ->
  (end_ = length ls \/ exists y, nth_error ls end_ = Some y /\ target < y) ->
  nth_error ls (length ls - 1) = Some z -> target < z ->
  exists v, find_nearest_loop fuel ls target start end_ = Returns v /\
            bracketed ls target v.
Proof.
  induction fuel as [| fuel IH]; intros start end_ x z Hrange Hfuel Hs Hx He Hz Hlast.
  - lia.
  - cbn [find_nearest_loop].
    destruct (half_bounds start end_) as [Hmid Hprog]; [lia |].
    set (mid := ((start + end_) / 2)%nat) in *.
    replace (start <? end_)%nat with true by (symmetry; apply Nat.ltb_lt; lia).
    destruct (nth_error ls mid) as [ls_mid |] eqn:Emid.
    2: { apply nth_error_None in Emid. lia. }
    destruct (Qeq_bool ls_mid target) eqn:Eeq.
    { exists ls_mid. split; auto. left. split.
      + eapply nth_error_In; eauto.
      + now apply Qeq_bool_iff. }
    apply Qeq_bool_neq in Eeq.
    destruct (Qltb ls_mid target) eqn:Elt.
    + apply Qltb_true in Elt.
      destruct (mid <? length ls - 1)%nat eqn:Ebound.
      * apply Nat.ltb_lt in Ebound.
        destruct (nth_error ls (mid + 1)) as [ls_next |] eqn:Enext.
        2: { apply nth_error_None in Enext. lia. }
        destruct (Qltb target ls_next) eqn:Enb.
        { apply Qltb_true in Enb.
          exists (get_closer target ls_mid ls_next). split; auto.
          right. exists mid, ls_mid, ls_next.
          replace (S mid) with (mid + 1)%nat by lia. auto 6. }
        apply Qltb_false in Enb.
        assert (start < mid)%nat.
        { destruct (Nat.eq_dec mid start) as [E | E]; [| lia].
          exfalso. assert (Hend : (end_ = mid + 1)%nat) by lia.
          destruct He as [He | (y & Hy & Hty)]; [lia |].
          rewrite Hend, Enext in Hy. injection Hy as <-. lra. }
        apply (IH mid end_ ls_mid z); auto; lia.
      * apply Nat.ltb_ge in Ebound.
        assert (mid = length ls - 1)%nat by lia.
        exfalso. rewrite <- H in Hz. rewrite Emid in Hz. injection Hz as <-. lra.
    + apply Qltb_false in Elt.
      assert (Hgt : target < ls_mid).
      { destruct (Qlt_le_dec target ls_mid) as [H | H]; auto.
        exfalso. apply Eeq. lra. }
      assert (Hsm : (start < mid)%nat).
      { destruct (Nat.eq_dec mid start) as [E | E]; [| lia].
        exfalso. rewrite E in Emid. rewrite Emid in Hs. injection Hs as <-. lra. }
      replace (0 <? mid)%nat with true by (symmetry; apply Nat.ltb_lt; lia).
      destruct (nth_error ls (mid - 1)) as [ls_prev |] eqn:Eprev.
      2: { apply nth_error_None in Eprev. lia. }
      destruct (Qltb ls_prev target) eqn:Epb.
      * apply Qltb_true in Epb.
        exists (get_closer target ls_mid ls_prev). split; auto.
        right. exists (mid - 1)%nat, ls_prev, ls_mid.
        replace (S (mid - 1)) with mid by lia. auto 6.
      * apply (IH start mid x z); auto; try lia.
        right. exists ls_mid. auto.
Qed.

(** With the list non-empty, [find_nearest] returns, and what it
    returns is the last element when the target is not below it, the
    first when the target is not above it, and otherwise bracketed. *)
Lemma find_nearest_fuel_returns (fuel : nat) :
  ls <> [] -> (length ls <= fuel)%nat ->
  exists v first last_,
    find_nearest_fuel fuel ls target = Returns v /\
    nth_error ls 0 = Some first /\
    nth_error ls (length ls - 1) = Some last_ /\
    ((last_ <= target /\ v = last_) \/
     (target < last_ /\ target <= first /\ v = first) \/
     (first < target /\ target < last_ /\ bracketed ls target v)).
Proof.
  intros Hne Hfuel.
  destruct ls as [| first tl] eqn:Els; [congruence |]. rewrite <- Els in *.
  assert (Hlen : (0 < length ls)%nat) by (rewrite Els; simpl; lia).
  assert (H0 : nth_error ls 0 = Some first) by (rewrite Els; reflexivity).
  destruct (nth_error ls (length ls - 1)) as [last_ |] eqn:El.
  2: { apply nth_error_None in El. lia. }
  unfold find_nearest_fuel, py_last, py_nth. rewrite El, H0.
  destruct (Qle_bool last_ target) eqn:E1.
  { apply Qle_bool_iff in E1. exists last_, first, last_. auto 10. }
  apply Qle_bool_false in E1.
  destruct (Qle_bool target first) eqn:E2.
  { apply Qle_bool_iff in E2. exists first, first, last_. auto 10. }
  apply Qle_bool_false in E2.
  destruct (find_nearest_loop_returns fuel 0 (length ls) first last_)
    as (v & Hv & Hb); auto; try lia.
  exists v, first, last_. auto 10.
Qed.

End FindNearest.

Lemma tie_between (t a b : Q) :
  a < b -> Qabs (t - a) == Qabs (t - b) -> a < t /\ t < b.
Proof.
  intros Hab.
  apply (Qabs_case (t - a)); intros Ha;
    apply (Qabs_case (t - b)); intros Hb Heq; lra.
Qed.

(** The first worked example of the specification. *)
Example find_nearest_example :
  Cartpole.find_nearest [0; 1; 2; 3; 4] (24 # 10) = Cartpole.Returns 2.
Proof. reflexivity. Qed.

(** C3, as the code has it: when the target t is at the same distance
    from two neighbours D[i] and D[i+1] of a strictly increasing domain,
    [find_nearest] returns one of the two: the smaller in the
    specification's example, the larger in the domain [0, 1] with the
    target 1/2. *)
Theorem find_nearest_tie (D : list Q) (t : Q) (i : nat) (a b : Q) :
  strictly_increasing D ->
  nth_error D i = Some a -> nth_error D (S i) = Some b ->
  Qabs (t - a) == Qabs (t - b) ->
  Cartpole.find_nearest D t = Cartpole.Returns a \/
  Cartpole.find_nearest D t = Cartpole.Returns b.
Proof.
  intros Hs Ha Hb Htie.
  assert (Hab : a < b) by (apply (Hs i (S i)); auto).
  destruct (tie_between t a b Hab Htie) as [Hat Htb].
  assert (Hne : D <> []) by (intros ->; destruct i; discriminate).
  destruct (find_nearest_fuel_returns D t (length D) Hne (Nat.le_refl _))
    as (v & first & last_ & Hv & H0 & Hl & Hcases).
  assert (Hi : (S i < length D)%nat) by (apply nth_error_Some; congruence).
  assert (first <= a) by (apply (strictly_increasing_le D 0 i); auto; lia).
  assert (b <= last_) by (apply (strictly_increasing_le D (S i) (length D - 1)); auto; lia).
  unfold Cartpole.find_nearest. rewrite Hv.
  destruct Hcases as [[Hle ->] | [(Hlt & Hle & ->) | (Hf & Hlt & Hbr)]]; try lra.
  destruct Hbr as [[Hin Heq] | (i' & a' & b' & Ha' & Hb' & Hat' & Htb' & Hv')].
  - exfalso. apply In_nth_error in Hin. destruct Hin as [j Hj].
    destruct (le_lt_dec j i) as [Hji | Hji].
    + assert (v <= a) by (apply (strictly_increasing_le D j i); auto). lra.
    + assert (b <= v) by (apply (strictly_increasing_le D (S i) j); auto). lra.
  - assert (i' = i).
    { destruct (lt_eq_lt_dec i' i) as [[Hlt' | E] | Hgt]; auto; exfalso.
      - assert (b' <= a) by (apply (strictly_increasing_le D (S i') i); auto). lra.
      - assert (b <= a') by (apply (strictly_increasing_le D (S i) i'); auto). lra. }
    subst i'. rewrite Ha in Ha'. rewrite Hb in Hb'.
    injection Ha' as <-. injection Hb' as <-.
    destruct (get_closer_cases t a b) as [Hab' _].
    destruct (get_closer_cases t b a) as [Hba' _].
    destruct Hv' as [-> | ->]; [destruct Hab' as [-> | ->] | destruct Hba' as [-> | ->]];
      auto.
Qed.

Lemma find_nearest_tie_witness :
  strictly_increasing [0; 1; 2; 3] /\
  Qabs ((5 # 2) - 2) == Qabs ((5 # 2) - 3) /\
  (Cartpole.find_nearest [0; 1; 2; 3] (5 # 2) = Cartpole.Returns 2 \/
   Cartpole.find_nearest [0; 1; 2; 3] (5 # 2) = Cartpole.Returns 3).
Proof.
  split; [apply strictly_increasingb_sound; reflexivity |].
  split; [reflexivity |].
  apply (find_nearest_tie [0; 1; 2; 3] (5 # 2) 2 2 3);
    [apply strictly_increasingb_sound; reflexivity
    | reflexivity | reflexivity | reflexivity].
Defined.

(** The second worked example of the specification: a tie that goes to
    the smaller element. *)
Example find_nearest_tie_smaller :
  Cartpole.find_nearest [0; 1; 2; 3] (5 # 2) = Cartpole.Returns 2.
Proof. reflexivity. Qed.

(** C3 as stated fails: in the domain [0, 1] the target 1/2 is at the
    same distance from both elements; the first probe is ls[1] = 1, and
    [get_closer(1, 0)] keeps its first argument on a tie, so the larger
    element is returned. *)
Lemma find_nearest_tie_larger :
  strictly_increasing [0; 1] /\
  nth_error [0; 1] 0 = Some 0 /\ nth_error [0; 1] 1 = Some 1 /\
  Qabs ((1 # 2) - 0) == Qabs ((1 # 2) - 1) /\
  Cartpole.find_nearest [0; 1] (1 # 2) = Cartpole.Returns 1 /\
  Cartpole.find_nearest [0; 1] (1 # 2) <> Cartpole.Returns 0 /\
  ~ 1 == 0.
Proof.
  split; [apply strictly_increasingb_sound; reflexivity |].
  repeat split; discriminate.
Qed.

(** ** find_nearest on binary64 *)

Lemma SFcompare_nan_r (x : spec_float) : SFcompare x S754_nan = None.
Proof. destruct x as [s | s | | s m e]; try destruct s; reflexivity. Qed.

Lemma rank_compare_lt (a b : Z * Z * Z) :
  Cartpole64.rank_compare a b = Lt <-> Cartpole64.rank_lt a b.
Proof.
  destruct a as [[a1 a2] a3], b as [[b1 b2] b3].
  unfold Cartpole64.rank_compare, Cartpole64.rank_lt.
  destruct (Z.compare_spec a1 b1), (Z.compare_spec a2 b2),
    (Z.compare_spec a3 b3); split; intros; try discriminate; try reflexivity; lia.
Qed.

Lemma rank_compare_gt (a b : Z * Z * Z) :
  Cartpole64.rank_compare a b = Gt <-> Cartpole64.rank_lt b a.
Proof.
  destruct a as [[a1 a2] a3], b as [[b1 b2] b3].
  unfold Cartpole64.rank_compare, Cartpole64.rank_lt.
  destruct (Z.compare_spec a1 b1), (Z.compare_spec a2 b2),
    (Z.compare_spec a3 b3); split; intros; try discriminate; try reflexivity; lia.
Qed.

Section Order64.
Import Cartpole64.

(** On numbers, [SFcompare] is the lexicographic comparison of ranks. *)
Lemma SFcompare_rank (x y : spec_float) :
  is_nan x = false -> is_nan y = false ->
  SFcompare x y = Some (rank_compare (rank x) (rank y)).
Proof.
  destruct x as [s | s | | s m e], y as [s' | s' | | s' m' e'];
    try discriminate; intros _ _;
    try destruct s; try destruct s'; try reflexivity;
    cbn [SFcompare rank rank_compare].
  rewrite Z.compare_refl, Z.compare_opp, (Z.compare_antisym e e').
  destruct (e ?= e')%Z; reflexivity.
Qed.

Variables x y : spec_float.
Hypothesis Hx : is_nan x = false.
Hypothesis Hy : is_nan y = false.

Lemma SFltb_true : SFltb x y = true <-> rank_lt (rank x) (rank y).
Proof.
  unfold SFltb. rewrite (SFcompare_rank x y Hx Hy), <- rank_compare_lt.
  destruct (rank_compare (rank x) (rank y)); split; congruence.
Qed.

Lemma SFltb_false : SFltb x y = false <-> ~ rank_lt (rank x) (rank y).
Proof.
  rewrite <- SFltb_true. destruct (SFltb x y); split; congruence.
Qed.

Lemma SFleb_false : SFleb x y = false <-> rank_lt (rank y) (rank x).
Proof.
  unfold SFleb. rewrite (SFcompare_rank x y Hx Hy), <- rank_compare_gt.
  destruct (rank_compare (rank x) (rank y)); split; congruence.
Qed.

Lemma SFleb_true : SFleb x y = true <-> ~ rank_lt (rank y) (rank x).
Proof.
  rewrite <- SFleb_false. destruct (SFleb x y); split; congruence.
Qed.

Lemma SFeqb_false :
  SFeqb x y = false <-> rank_lt (rank x) (rank y) \/ rank_lt (rank y) (rank x).
Proof.
  unfold SFeqb. rewrite (SFcompare_rank x y Hx Hy), <- rank_compare_lt,
    <- rank_compare_gt.
  destruct (rank_compare (rank x) (rank y)); split; intros H';
    try reflexivity; try discriminate; auto; destruct H'; discriminate.
Qed.

End Order64.

Lemma numbers_nth (ls : list spec_float) (i : nat) (x : spec_float) :
  Cartpole64.numbers ls -> nth_error ls i = Some x ->
  Cartpole64.is_nan x = false.
Proof.
  intros Hn Hi. apply nth_error_In in Hi.
  unfold Cartpole64.numbers in Hn. rewrite Forall_forall in Hn. now apply Hn.
Qed.

Lemma strictly_increasing64_sound (ls : list spec_float) :
  Cartpole64.numbers ls ->
  Cartpole64.strictly_increasingb ls = true -> Cartpole64.strictly_increasing ls.
Proof.
  induction ls as [| x tl IH]; intros Hn Hb i j a b Hij Hi Hj.
  - destruct i; discriminate.
  - inversion Hn as [| ? ? Hx Htl]; subst.
    assert (Hb' : Cartpole64.strictly_increasingb tl = true /\
                  forall y, nth_error tl 0 = Some y -> SFltb x y = true).
    { simpl in Hb. destruct tl as [| y tl']; [split; [reflexivity | discriminate] |].
      apply andb_true_iff in Hb. destruct Hb as [H1 H2].
      split; auto. intros y0 E. injection E as <-. exact H1. }
    destruct Hb' as [Hbt Hhd]. specialize (IH Htl Hbt).
    destruct j as [| j]; [lia |].
    destruct i as [| i]; simpl in Hi, Hj.
    + injection Hi as <-.
      destruct (nth_error tl 0) as [y0 |] eqn:E0.
      * specialize (Hhd y0 eq_refl).
        destruct j as [| j]; [congruence |].
        assert (Hyb : SFltb y0 b = true) by (apply (IH 0%nat (S j)); auto; lia).
        pose proof (numbers_nth tl 0 y0 Htl E0) as Hy0.
        pose proof (numbers_nth tl (S j) b Htl Hj) as Hb0.
        apply SFltb_true in Hhd, Hyb; auto. apply SFltb_true; auto. rank_lia.
      * destruct tl; [destruct j |]; discriminate.
    + apply (IH i j); auto. lia.
Qed.

(** Rounding a non-negative mantissa never gives NaN, so neither does a
    subtraction from a finite number. *)
Lemma shr_1_nonneg (mrs : shr_record) :
  (0 <= shr_m mrs)%Z -> (0 <= shr_m (shr_1 mrs))%Z.
Proof.
  destruct mrs as [m r s]. destruct m as [| [p | p |] | p]; simpl; lia.
Qed.

Lemma iter_shr_1_nonneg (p : positive) :
  forall mrs, (0 <= shr_m mrs)%Z -> (0 <= shr_m (iter_pos shr_1 p mrs))%Z.
Proof.
  induction p as [p IH | p IH |]; intros mrs H; simpl.
  - apply IH, IH, shr_1_nonneg, H.
  - apply IH, IH, H.
  - apply shr_1_nonneg, H.
Qed.

Lemma shr_fexp_nonneg (prec emax m e : Z) (l : location) :
  (0 <= m)%Z -> (0 <= shr_m (fst (shr_fexp prec emax m e l)))%Z.
Proof.
  intros H. unfold shr_fexp, shr.
  assert (H0 : (0 <= shr_m (shr_record_of_loc m l))%Z).
  { destruct l as [| []]; exact H. }
  destruct (fexp prec emax (Zdigits2 m + e) - e)%Z; simpl; auto.
  now apply iter_shr_1_nonneg.
Qed.

Lemma round_nearest_even_nonneg (m : Z) (l : location) :
  (0 <= m)%Z -> (0 <= round_nearest_even m l)%Z.
Proof.
  intros H. destruct l as [| []]; simpl; try lia.
  destruct (Z.even m); lia.
Qed.

Lemma binary_round_aux_number (prec emax : Z) (sx : bool) (mx ex : Z)
    (lx : location) :
  (0 <= mx)%Z -> Cartpole64.is_nan (binary_round_aux prec emax sx mx ex lx) = false.
Proof.
  intros H. unfold binary_round_aux.
  pose proof (shr_fexp_nonneg prec emax mx ex lx H) as H1.
  destruct (shr_fexp prec emax mx ex lx) as [mrs' e']. simpl in H1.
  pose proof (shr_fexp_nonneg prec emax _ e' loc_Exact
                (round_nearest_even_nonneg _ (loc_of_shr_record mrs') H1)) as H2.
  destruct (shr_fexp prec emax _ e' loc_Exact) as [mrs'' e'']. simpl in H2.
  destruct (shr_m mrs'') as [| m | m]; try reflexivity.
  - destruct (e'' <=? emax - prec)%Z; reflexivity.
  - lia.
Qed.

Lemma binary_normalize_number (prec emax m e : Z) (szero : bool) :
  Cartpole64.is_nan (binary_normalize prec emax m e szero) = false.
Proof.
  destruct m as [| m | m]; simpl; try reflexivity;
    unfold binary_round;
    destruct (shl_align _ _ _) as [mz ez];
    apply binary_round_aux_number; lia.
Qed.

Lemma SFsub_number (prec emax : Z) (x y : spec_float) :
  Cartpole64.is_nan x = false -> Cartpole64.is_nan y = false ->
  (forall s, x <> S754_infinity s) ->
  Cartpole64.is_nan (SFsub prec emax x y) = false.
Proof.
  intros Hx Hy Hfin.
  destruct x as [sx | sx | | sx mx ex]; try discriminate;
    [| exfalso; now apply (Hfin sx) |];
    destruct y as [sy | sy | | sy my ey]; try discriminate;
    try reflexivity.
  - destruct sx, sy; reflexivity.
  - apply binary_normalize_number.
Qed.

Lemma SFabs_number (x : spec_float) : Cartpole64.is_nan (SFabs x) = Cartpole64.is_nan x.
Proof. destruct x; reflexivity. Qed.

Lemma between_not_infinity (a t b : spec_float) :
  SFltb a t = true -> SFltb t b = true -> forall s, t <> S754_infinity s.
Proof.
  intros Ha Hb s ->. destruct s.
  - destruct a as [sa | sa | | sa ma ea]; try destruct sa; discriminate.
  - destruct b as [sb | sb | | sb mb eb]; try destruct sb; discriminate.
Qed.

Lemma distance_number (t x : spec_float) :
  Cartpole64.is_nan t = false -> Cartpole64.is_nan x = false ->
  (forall s, t <> S754_infinity s) ->
  Cartpole64.is_nan (Cartpole64.distance t x) = false.
Proof.
  intros Ht Hx Hfin. unfold Cartpole64.distance.
  rewrite SFabs_number. now apply SFsub_number.
Qed.

Section FindNearest64.
Import Cartpole64.

Variable ls : list spec_float.
Variable target : spec_float.

(** [get_closer(a, b)] for a finite target: the result is [a] or [b]
    and its distance is at most that of the other. *)
Lemma get_closer64_spec (a b : spec_float) :
  is_nan target = false -> is_nan a = false -> is_nan b = false ->
  (forall s, target <> S754_infinity s) ->
  (get_closer target a b = a /\
   SFleb (distance target a) (distance target b) = true) \/
  (get_closer target a b = b /\
   SFleb (distance target b) (distance target a) = true).
Proof.
  intros Ht Ha Hb Hfin.
  pose proof (distance_number target a Ht Ha Hfin) as Na.
  pose proof (distance_number target b Ht Hb Hfin) as Nb.
  unfold get_closer. fold (distance target a). fold (distance target b).
  destruct (SFleb (distance target a) (distance target b)) eqn:E.
  - left. split; reflexivity.
  - right. split; [reflexivity |].
    apply SFleb_false in E; auto. apply SFleb_true; auto. rank_lia.
Qed.

Lemma bracketed64_In (v : spec_float) : bracketed ls target v -> In v ls.
Proof.
  intros [[H _] | (i & a & b & Ha & Hb & _ & _ & [[-> _] | [-> _]])]; auto;
    eapply nth_error_In; eauto.
Qed.

(** With a NaN target every comparison of the loop is false: it
    narrows by [end = mid] down to [end = 0] and falls through. *)
Lemma find_nearest64_loop_nan (fuel : nat) :
  forall end_, (end_ <= length ls)%nat -> (end_ < fuel)%nat ->
  find_nearest_loop fuel ls S754_nan 0 end_ = ReturnsNone.
Proof.
  induction fuel as [| fuel IH]; intros end_ Hlen Hfuel; [lia |].
  cbn [find_nearest_loop].
  destruct (0 <? end_)%nat eqn:E0; [| reflexivity].
  apply Nat.ltb_lt in E0.
  destruct (half_bounds 0 end_ E0) as [Hmid _]. cbn [Nat.add] in *.
  set (mid := (end_ / 2)%nat) in *.
  destruct (nth_error ls mid) as [ls_mid |] eqn:Emid.
  2: { apply nth_error_None in Emid. lia. }
  unfold SFeqb, SFltb. rewrite SFcompare_nan_r.
  destruct (0 <? mid)%nat eqn:Em.
  - apply Nat.ltb_lt in Em.
    destruct (nth_error ls (mid - 1)) as [ls_prev |] eqn:Eprev.
    2: { apply nth_error_None in Eprev. lia. }
    rewrite SFcompare_nan_r. apply IH; lia.
  - apply IH; lia.
Qed.

Hypothesis Hnum : numbers ls.
Hypothesis Htarget : is_nan target = false.

(** The loop invariant: [ls[start] < target], [target < ls[end]] unless
    [end] is the length, and [target] below the last element.  Under
    it the loop returns, within [end - start] iterations. *)
Lemma find_nearest64_loop_returns (fuel : nat) :
  forall start end_ x z,
  (start < end_ <= length ls)%nat ->
  (end_ - start <= fuel)%nat ->
  nth_error ls start = Some x -> SFltb x target = true ->
  (end_ = length ls \/
   exists y, nth_error ls end_ = Some y /\ SFltb target y = true) ->
  nth_error ls (length ls - 1) = Some z -> SFltb target z = true ->
  exists v, find_nearest_loop fuel ls target start end_ = Returns v /\
            bracketed ls target v.
Proof.
  induction fuel as [| fuel IH]; intros start end_ x z Hrange Hfuel Hs Hx He Hz Hlast.
  - lia.
  - cbn [find_nearest_loop].
    destruct (half_bounds start end_) as [Hmid Hprog]; [lia |].
    set (mid := ((start + end_) / 2)%nat) in *.
    replace (start <? end_)%nat with true by (symmetry; apply Nat.ltb_lt; lia).
    destruct (nth_error ls mid) as [ls_mid |] eqn:Emid.
    2: { apply nth_error_None in Emid. lia. }
    pose proof (numbers_nth ls mid ls_mid Hnum Emid) as Nmid.
    pose proof (numbers_nth ls start x Hnum Hs) as Nx.
    pose proof (numbers_nth ls _ z Hnum Hz) as Nz.
    destruct (SFeqb ls_mid target) eqn:Eeq.
    { exists ls_mid. split; auto. left. split; auto.
      eapply nth_error_In; eauto. }
    apply SFeqb_false in Eeq; auto.
    apply SFltb_true in Hx, Hlast; auto.
    destruct (SFltb ls_mid target) eqn:Elt.
    + destruct (mid <? length ls - 1)%nat eqn:Ebound.
      * apply Nat.ltb_lt in Ebound.
        destruct (nth_error ls (mid + 1)) as [ls_next |] eqn:Enext.
        2: { apply nth_error_None in Enext. lia. }
        pose proof (numbers_nth ls _ ls_next Hnum Enext) as Nnext.
        destruct (SFltb target ls_next) eqn:Enb.
        { exists (get_closer target ls_mid ls_next). split; auto.
          right. exists mid, ls_mid, ls_next.
          replace (S mid) with (mid + 1)%nat by lia.
          repeat (split; [assumption |]).
          apply get_closer64_spec; auto.
          exact (between_not_infinity _ _ _ Elt Enb). }
        apply SFltb_false in Enb; auto.
        assert (start < mid)%nat.
        { destruct (Nat.eq_dec mid start) as [E | E]; [| lia].
          exfalso. assert (Hend : (end_ = mid + 1)%nat) by lia.
          destruct He as [He | (y & Hy & Hty)]; [lia |].
          rewrite Hend, Enext in Hy. injection Hy as <-.
          apply SFltb_true in Hty; auto. }
        apply (IH mid end_ ls_mid z); auto; try lia.
        apply SFltb_true; auto.
      * apply Nat.ltb_ge in Ebound.
        assert (mid = length ls - 1)%nat by lia.
        exfalso. rewrite <- H in Hz. rewrite Emid in Hz. injection Hz as <-.
        apply SFltb_true in Elt; auto. rank_lia.
    + apply SFltb_false in Elt; auto.
      assert (Hgt : rank_lt (rank target) (rank ls_mid)) by tauto.
      assert (Hsm : (start < mid)%nat).
      { destruct (Nat.eq_dec mid start) as [E | E]; [| lia].
        exfalso. rewrite E in Emid. rewrite Emid in Hs. injection Hs as <-.
        rank_lia. }
      replace (0 <? mid)%nat with true by (symmetry; apply Nat.ltb_lt; lia).
      destruct (nth_error ls (mid - 1)) as [ls_prev |] eqn:Eprev.
      2: { apply nth_error_None in Eprev. lia. }
      destruct (SFltb ls_prev target) eqn:Epb.
      * exists (get_closer target ls_mid ls_prev). split; auto.
        pose proof (numbers_nth ls _ ls_prev Hnum Eprev) as Nprev.
        assert (Hup : SFltb target ls_mid = true) by (apply SFltb_true; auto).
        right. exists (mid - 1)%nat, ls_prev, ls_mid.
        replace (S (mid - 1)) with mid by lia.
        repeat (split; [assumption |]).
        destruct (get_closer64_spec ls_mid ls_prev) as [H | H]; auto.
        exact (between_not_infinity _ _ _ Epb Hup).
      * apply (IH start mid x z); auto; try lia.
        -- apply SFltb_true; auto.
        -- right. exists ls_mid. split; auto. apply SFltb_true; auto.
        -- apply SFltb_true; auto.
Qed.

(** With the list non-empty and no NaN about, [find_nearest] returns,
    and what it returns is the last element when the target is not
    below it, the first when the target is not above it, and otherwise
    bracketed. *)
Lemma find_nearest64_fuel_returns (fuel : nat) :
  ls <> [] -> (length ls <= fuel)%nat ->
  exists v first last_,
    find_nearest_fuel fuel ls target = Returns v /\
    nth_error ls 0 = Some first /\
    nth_error ls (length ls - 1) = Some last_ /\
    ((SFleb last_ target = true /\ v = last_) \/
     (SFleb last_ target = false /\ SFleb target first = true /\ v = first) \/
     (SFltb first target = true /\ SFltb target last_ = true /\
      bracketed ls target v)).
Proof.
  intros Hne Hfuel.
  assert (Hlen : (0 < length ls)%nat).
  { destruct ls; [congruence | simpl; lia]. }
  destruct (nth_error ls 0) as [first |] eqn:H0.
  2: { apply nth_error_None in H0. lia. }
  destruct (nth_error ls (length ls - 1)) as [last_ |] eqn:El.
  2: { apply nth_error_None in El. lia. }
  pose proof (numbers_nth ls _ first Hnum H0) as Nfirst.
  pose proof (numbers_nth ls _ last_ Hnum El) as Nlast.
  unfold find_nearest_fuel, py_last, py_nth. rewrite El, H0.
  destruct (SFleb last_ target) eqn:E1.
  { exists last_, first, last_. auto 10. }
  destruct (SFleb target first) eqn:E2.
  { exists first, first, last_. auto 10. }
  apply SFleb_false in E1, E2; auto.
  apply <- (SFltb_true target last_) in E1; auto.
  apply <- (SFltb_true first target) in E2; auto.
  destruct (find_nearest64_loop_returns fuel 0 (length ls) first last_)
    as (v & Hv & Hb); auto; try lia.
  exists v, first, last_. auto 10.
Qed.

End FindNearest64.

Lemma find_nearest64_loop_fuel_mono (ls : list spec_float)
    (target : spec_float) (fuel fuel' : nat) :
  (fuel <= fuel')%nat -> forall start end_ v,
  Cartpole64.find_nearest_loop fuel ls target start end_ = Cartpole64.Returns v ->
  Cartpole64.find_nearest_loop fuel' ls target start end_ = Cartpole64.Returns v.
Proof.
  revert fuel'. induction fuel as [| fuel IH]; intros fuel' Hle start end_ v.
  - discriminate.
  - destruct fuel' as [| fuel']; [lia |].
    assert (Hle' : (fuel <= fuel')%nat) by lia.
    specialize (IH fuel' Hle').
    cbn [Cartpole64.find_nearest_loop].
    repeat match goal with
    | |- context [if ?c then _ else _] => destruct c
    | |- context [match nth_error ?l ?i with _ => _ end] =>
        destruct (nth_error l i)
    end; auto.
Qed.

Lemma find_nearest64_fuel_mono (fuel fuel' : nat) (ls : list spec_float)
    (target v : spec_float) :
  (fuel <= fuel')%nat ->
  Cartpole64.find_nearest_fuel fuel ls target = Cartpole64.Returns v ->
  Cartpole64.find_nearest_fuel fuel' ls target = Cartpole64.Returns v.
Proof.
  intros Hle. unfold Cartpole64.find_nearest_fuel.
  destruct (py_last ls); auto.
  destruct (SFleb a target); auto.
  destruct (py_nth ls 0); auto.
  destruct (SFleb target a0); auto.
  now apply find_nearest64_loop_fuel_mono.
Qed.

(** A NaN target passes both edge tests and the loop falls through. *)
Lemma find_nearest64_fuel_nan (ls : list spec_float) (fuel : nat) :
  ls <> [] -> (length ls < fuel)%nat ->
  Cartpole64.find_nearest_fuel fuel ls S754_nan = Cartpole64.ReturnsNone.
Proof.
  intros Hne Hfuel.
  assert (Hlen : (0 < length ls)%nat).
  { destruct ls; [congruence | simpl; lia]. }
  destruct (nth_error ls 0) as [first |] eqn:H0.
  2: { apply nth_error_None in H0. lia. }
  destruct (nth_error ls (length ls - 1)) as [last_ |] eqn:El.
  2: { apply nth_error_None in El. lia. }
  unfold Cartpole64.find_nearest_fuel, py_last, py_nth. rewrite El, H0.
  unfold SFleb. rewrite SFcompare_nan_r. cbn [SFcompare].
  apply find_nearest64_loop_nan; lia.
Qed.

Lemma is_nan_true (x : spec_float) : Cartpole64.is_nan x = true -> x = S754_nan.
Proof. destruct x; try discriminate; reflexivity. Qed.

(** Sorted or not, a non-empty list of numbers gives back one of its
    elements for a target that is a number. *)
Lemma find_nearest64_member (ls : list spec_float) (target : spec_float) :
  ls <> [] -> Cartpole64.numbers ls -> Cartpole64.is_nan target = false ->
  exists v, Cartpole64.find_nearest ls target = Cartpole64.Returns v /\ In v ls.
Proof.
  intros Hne Hn Ht.
  destruct (find_nearest64_fuel_returns ls target Hn Ht (S (length ls)) Hne)
    as (v & first & last_ & Hv & H0 & Hl & Hcase); [lia |].
  exists v. split; [exact Hv |].
  destruct Hcase as [[_ ->] | [(_ & _ & ->) | (_ & _ & Hb)]].
  - eapply nth_error_In; eauto.
  - eapply nth_error_In; eauto.
  - eapply bracketed64_In; eauto.
Qed.

Lemma discretize_state64_from_ok (observation_space : list (list spec_float)) :
  Forall (fun d => d <> [] /\ Cartpole64.numbers d) observation_space ->
  forall state idx acc,
  (idx + length state <= length observation_space)%nat ->
  exists key,
    Cartpole64.discretize_state_from idx state observation_space acc
      = Cartpole64.ReturnsTuple (acc ++ key) /\
    length key = length state /\
    forall j x dom,
      nth_error state j = Some x ->
      nth_error observation_space (idx + j) = Some dom ->
      (Cartpole64.is_nan x = false ->
         exists v, nth_error key j = Some (Some v) /\ In v dom) /\
      (Cartpole64.is_nan x = true -> nth_error key j = Some None).
Proof.
  intros Hall. rewrite Forall_forall in Hall.
  induction state as [| factor rest IH]; intros idx acc Hlen.
  - exists []. rewrite app_nil_r. repeat split; auto.
    all: destruct j; discriminate.
  - cbn [length] in Hlen. cbn [Cartpole64.discretize_state_from].
    unfold py_nth.
    destruct (nth_error observation_space idx) as [domain |] eqn:Ed.
    2: { apply nth_error_None in Ed. lia. }
    destruct (Hall domain) as [Hne Hn]; [eapply nth_error_In; eauto |].
    destruct (Cartpole64.is_nan factor) eqn:En.
    + pose proof (is_nan_true factor En) as ->.
      unfold Cartpole64.find_nearest.
      rewrite (find_nearest64_fuel_nan domain _ Hne (Nat.lt_succ_diag_r _)).
      destruct (IH (S idx) (acc ++ [None])) as (key & Hkey & Hl & Hnth); [lia |].
      exists (None :: key). rewrite Hkey, <- app_assoc.
      split; [reflexivity | split; [simpl; lia |]].
      intros j x dom Hx Hd. destruct j as [| j]; simpl in Hx.
      * injection Hx as <-. split; [discriminate | reflexivity].
      * apply (Hnth j x dom Hx).
        now replace (S idx + j)%nat with (idx + S j)%nat by lia.
    + destruct (find_nearest64_member domain factor Hne Hn En) as (v & Hv & Hin).
      rewrite Hv.
      destruct (IH (S idx) (acc ++ [Some v])) as (key & Hkey & Hl & Hnth); [lia |].
      exists (Some v :: key). rewrite Hkey, <- app_assoc.
      split; [reflexivity | split; [simpl; lia |]].
      intros j x dom Hx Hd. destruct j as [| j]; simpl in Hx.
      * injection Hx as <-. rewrite Nat.add_0_r, Ed in Hd. injection Hd as <-.
        split; [| congruence]. intros _. exists v. auto.
      * apply (Hnth j x dom Hx).
        now replace (S idx + j)%nat with (idx + S j)%nat by lia.
Qed.

(** C2: on binary64, for every non-empty strictly increasing domain D
    without NaN and every target t that is not NaN, [find_nearest]
    returns an element of D: the last one when [t >= D[-1]], the first
    one when [t <= D[0]], and otherwise an element equal to t or one of
    two adjacent elements that enclose t, whose computed distance
    [abs(t - element)], a rounded difference, is at most that of the
    other.  (The exact distance of the other can be smaller.) *)
Theorem find_nearest64_clamps_or_brackets (D : list spec_float) (t : spec_float) :
  D <> [] -> Cartpole64.numbers D -> Cartpole64.strictly_increasing D ->
  Cartpole64.is_nan t = false ->
  exists v first last_,
    Cartpole64.find_nearest D t = Cartpole64.Returns v /\ In v D /\
    nth_error D 0 = Some first /\
    nth_error D (length D - 1) = Some last_ /\
    (SFleb t first = true -> v = first) /\
    (SFleb last_ t = true -> v = last_) /\
    (SFltb first t = true -> SFltb t last_ = true ->
       Cartpole64.bracketed D t v).
Proof.
  intros Hne Hn Hs Ht.
  destruct (find_nearest64_fuel_returns D t Hn Ht (S (length D)) Hne)
    as (v & first & last_ & Hv & H0 & Hl & Hcase); [lia |].
  pose proof (numbers_nth D _ first Hn H0) as Nfirst.
  pose proof (numbers_nth D _ last_ Hn Hl) as Nlast.
  assert (Hin : In v D).
  { destruct (find_nearest64_member D t Hne Hn Ht) as (w & Hw & Hin).
    unfold Cartpole64.find_nearest in Hw. congruence. }
  exists v, first, last_.
  split; [exact Hv | split; [exact Hin | split; [exact H0 | split; [exact Hl |]]]].
  assert (Hfl : (0 < length D - 1)%nat -> SFltb first last_ = true).
  { intros Hlt. apply (Hs 0%nat (length D - 1)%nat); auto. }
  destruct Hcase as [[E1 ->] | [(E1 & E2 & ->) | (E1 & E2 & Hb)]].
  - split; [| split]; auto.
    + intros E3.
      destruct (Nat.eq_dec (length D - 1) 0) as [E | E].
      * rewrite E in Hl. congruence.
      * exfalso. assert (Hlt : SFltb first last_ = true) by (apply Hfl; lia).
        apply SFltb_true in Hlt; auto. apply SFleb_true in E1, E3; auto.
        rank_lia.
    + intros E3 E4. exfalso.
      apply SFltb_true in E4; auto. apply SFleb_true in E1; auto.
  - split; [| split]; auto.
    + intros E3. congruence.
    + intros E3 E4. exfalso.
      apply SFltb_true in E3; auto. apply SFleb_true in E2; auto.
  - apply SFltb_true in E1, E2; auto.
    split; [| split]; auto.
    + intros E3. exfalso. apply SFleb_true in E3; auto.
    + intros E3. exfalso. apply SFleb_true in E3; auto.
Qed.

Lemma find_nearest64_clamps_or_brackets_witness :
  exists v first last_,
    Cartpole64.find_nearest
      [Cartpole64.float_of 0 0; Cartpole64.float_of 1 0; Cartpole64.float_of 2 0]
      (Cartpole64.float_of 5 (-2)) = Cartpole64.Returns v /\
    In v [Cartpole64.float_of 0 0; Cartpole64.float_of 1 0; Cartpole64.float_of 2 0] /\
    nth_error
      [Cartpole64.float_of 0 0; Cartpole64.float_of 1 0; Cartpole64.float_of 2 0] 0
      = Some first /\
    nth_error
      [Cartpole64.float_of 0 0; Cartpole64.float_of 1 0; Cartpole64.float_of 2 0]
      (length [Cartpole64.float_of 0 0; Cartpole64.float_of 1 0;
               Cartpole64.float_of 2 0] - 1) = Some last_ /\
    (SFleb (Cartpole64.float_of 5 (-2)) first = true -> v = first) /\
    (SFleb last_ (Cartpole64.float_of 5 (-2)) = true -> v = last_) /\
    (SFltb first (Cartpole64.float_of 5 (-2)) = true ->
     SFltb (Cartpole64.float_of 5 (-2)) last_ = true ->
       Cartpole64.bracketed
         [Cartpole64.float_of 0 0; Cartpole64.float_of 1 0; Cartpole64.float_of 2 0]
         (Cartpole64.float_of 5 (-2)) v).
Proof.
  apply find_nearest64_clamps_or_brackets.
  - discriminate.
  - repeat constructor.
  - apply strictly_increasing64_sound; [repeat constructor | reflexivity].
  - reflexivity.
Defined.

(** The domain [-1.0, 1.0] and the target -2^-60, all binary64 values:
    both differences round to 1.0, [get_closer(1.0, -1.0)] sees a tie
    and keeps 1.0, though -1.0 is the nearer element. *)
Lemma find_nearest64_not_nearest :
  Forall (fun x => valid_binary Cartpole64.prec Cartpole64.emax x = true)
    [Cartpole64.float_of (-1) (-60); Cartpole64.float_of (-1) 0;
     Cartpole64.float_of 1 0] /\
  Cartpole64.strictly_increasing
    [Cartpole64.float_of (-1) 0; Cartpole64.float_of 1 0] /\
  Cartpole64.to_Q (Cartpole64.float_of (-1) (-60)) == - (1 # 2) ^ 60 /\
  Cartpole64.to_Q (Cartpole64.float_of (-1) 0) == - 1 /\
  Cartpole64.to_Q (Cartpole64.float_of 1 0) == 1 /\
  SFltb (Cartpole64.float_of (-1) 0) (Cartpole64.float_of (-1) (-60)) = true /\
  SFltb (Cartpole64.float_of (-1) (-60)) (Cartpole64.float_of 1 0) = true /\
  Cartpole64.distance (Cartpole64.float_of (-1) (-60)) (Cartpole64.float_of (-1) 0)
    = Cartpole64.float_of 1 0 /\
  Cartpole64.distance (Cartpole64.float_of (-1) (-60)) (Cartpole64.float_of 1 0)
    = Cartpole64.float_of 1 0 /\
  Cartpole64.find_nearest
    [Cartpole64.float_of (-1) 0; Cartpole64.float_of 1 0]
    (Cartpole64.float_of (-1) (-60))
    = Cartpole64.Returns (Cartpole64.float_of 1 0) /\
  Qabs (Cartpole64.to_Q (Cartpole64.float_of (-1) (-60))
        - Cartpole64.to_Q (Cartpole64.float_of (-1) 0))
  < Qabs (Cartpole64.to_Q (Cartpole64.float_of (-1) (-60))
          - Cartpole64.to_Q (Cartpole64.float_of 1 0)).
Proof.
  split; [repeat constructor |].
  split; [apply strictly_increasing64_sound; [repeat constructor | reflexivity] |].
  repeat split; vm_compute; reflexivity.
Qed.

(** C4: on binary64, for every non-empty domain D without NaN,
    [find_nearest] returns a value for every target that is not NaN:
    the loop returns within [len(D)] iterations and never runs to its
    end, and more fuel gives the same value.  For a NaN target neither
    edge case applies and the loop does run to its end: the result is
    [None]. *)
Theorem find_nearest64_returns_unless_nan (D : list spec_float)
    (t : spec_float) :
  D <> [] -> Cartpole64.numbers D ->
  (Cartpole64.is_nan t = false ->
     exists v, Cartpole64.find_nearest D t = Cartpole64.Returns v /\
       forall fuel, (length D <= fuel)%nat ->
         Cartpole64.find_nearest_fuel fuel D t = Cartpole64.Returns v) /\
  (Cartpole64.is_nan t = true ->
     Cartpole64.find_nearest D t = Cartpole64.ReturnsNone /\
     forall fuel, (length D < fuel)%nat ->
       Cartpole64.find_nearest_fuel fuel D t = Cartpole64.ReturnsNone).
Proof.
  intros Hne Hn. split.
  - intros Ht.
    destruct (find_nearest64_fuel_returns D t Hn Ht (length D) Hne (Nat.le_refl _))
      as (v & _ & _ & Hv & _).
    exists v. split.
    + apply (find_nearest64_fuel_mono (length D)); auto.
    + intros fuel Hfuel. now apply (find_nearest64_fuel_mono (length D)).
  - intros Ht. apply is_nan_true in Ht. subst t. split.
    + apply find_nearest64_fuel_nan; auto.
    + intros fuel Hfuel. now apply find_nearest64_fuel_nan.
Qed.

Lemma find_nearest64_returns_unless_nan_witness :
  (Cartpole64.is_nan (Cartpole64.float_of 5 (-2)) = false ->
     exists v,
       Cartpole64.find_nearest
         [Cartpole64.float_of 0 0; Cartpole64.float_of 1 0; Cartpole64.float_of 2 0]
         (Cartpole64.float_of 5 (-2)) = Cartpole64.Returns v /\
       forall fuel,
         (length [Cartpole64.float_of 0 0; Cartpole64.float_of 1 0;
                  Cartpole64.float_of 2 0] <= fuel)%nat ->
         Cartpole64.find_nearest_fuel fuel
           [Cartpole64.float_of 0 0; Cartpole64.float_of 1 0; Cartpole64.float_of 2 0]
           (Cartpole64.float_of 5 (-2)) = Cartpole64.Returns v) /\
  (Cartpole64.is_nan (Cartpole64.float_of 5 (-2)) = true ->
     Cartpole64.find_nearest
       [Cartpole64.float_of 0 0; Cartpole64.float_of 1 0; Cartpole64.float_of 2 0]
       (Cartpole64.float_of 5 (-2)) = Cartpole64.ReturnsNone /\
     forall fuel,
       (length [Cartpole64.float_of 0 0; Cartpole64.float_of 1 0;
                Cartpole64.float_of 2 0] < fuel)%nat ->
       Cartpole64.find_nearest_fuel fuel
         [Cartpole64.float_of 0 0; Cartpole64.float_of 1 0; Cartpole64.float_of 2 0]
         (Cartpole64.float_of 5 (-2)) = Cartpole64.ReturnsNone).
Proof.
  apply find_nearest64_returns_unless_nan.
  - discriminate.
  - repeat constructor.
Defined.

(** The strictly increasing domain [0.0, 1.0, 2.0] and the target NaN:
    [nan >= 2.0] and [nan <= 0.0] are false, and so is every comparison
    of the loop, which narrows by [end = mid] to [end = 0] and ends;
    the function returns [None]. *)
Lemma find_nearest64_nan_target_none :
  [Cartpole64.float_of 0 0; Cartpole64.float_of 1 0; Cartpole64.float_of 2 0] <> [] /\
  Cartpole64.strictly_increasing
    [Cartpole64.float_of 0 0; Cartpole64.float_of 1 0; Cartpole64.float_of 2 0] /\
  SFleb (Cartpole64.float_of 2 0) Cartpole64.nan = false /\
  SFleb Cartpole64.nan (Cartpole64.float_of 0 0) = false /\
  Cartpole64.find_nearest
    [Cartpole64.float_of 0 0; Cartpole64.float_of 1 0; Cartpole64.float_of 2 0]
    Cartpole64.nan = Cartpole64.ReturnsNone.
Proof.
  split; [discriminate |].
  split; [apply strictly_increasing64_sound; [repeat constructor | reflexivity] |].
  repeat split.
Qed.

(** ** discretize_observation_space *)

Lemma append_all_id (values : list Q) : Cartpole.append_all values = values.
Proof.
  unfold Cartpole.append_all.
  assert (H : forall acc, fold_left (fun ds i => ds ++ [i]) values acc = acc ++ values).
  { induction values as [| x tl IH]; intros acc; simpl.
    - now rewrite app_nil_r.
    - rewrite IH, <- app_assoc. reflexivity. }
  apply H.
Qed.

Lemma arange_values_empty (lo hi step : Q) :
  hi <= lo -> 0 < step -> Cartpole.arange_values lo hi step = [].
Proof.
  intros Hle Hstep. unfold Cartpole.arange_values.
  assert (Hq : (hi - lo) / step <= 0).
  { unfold Qdiv. pose proof (Qinv_lt_0_compat step Hstep) as Hinv.
    rewrite <- (Qmult_0_l (/ step)). apply Qmult_le_compat_r; lra. }
  apply Qceiling_resp_le in Hq. change (Qceiling 0) with 0%Z in Hq.
  replace (Z.to_nat (Qceiling ((hi - lo) / step))) with 0%nat by lia.
  reflexivity.
Qed.

Lemma discretize_from_ok (steps : list Q) (bs : list (Q * Q)) :
  forall idx acc,
  (forall j b, nth_error bs j = Some b ->
     exists step, nth_error steps (idx + j) = Some step /\ ~ step == 0) ->
  exists ds,
    Cartpole.discretize_from idx bs steps acc = Ok (acc ++ ds) /\
    length ds = length bs /\
    forall j lo hi step,
      nth_error bs j = Some (lo, hi) -> nth_error steps (idx + j) = Some step ->
      nth_error ds j = Some (Cartpole.arange_values lo hi step).
Proof.
  induction bs as [| [lo0 hi0] rest IH]; intros idx acc Hsteps.
  - exists []. simpl. rewrite app_nil_r. repeat split; auto.
    intros j lo hi step Hj. destruct j; discriminate.
  - destruct (Hsteps 0%nat (lo0, hi0) eq_refl) as (step0 & Hs0 & Hnz).
    rewrite Nat.add_0_r in Hs0.
    destruct (IH (S idx) (acc ++ [Cartpole.append_all (Cartpole.arange_values lo0 hi0 step0)]))
      as (ds & Hds & Hlen & Hnth).
    { intros j b Hj. destruct (Hsteps (S j) b Hj) as (step & Hs & Hn).
      exists step. split; auto. now replace (S idx + j)%nat with (idx + S j)%nat by lia. }
    exists (Cartpole.arange_values lo0 hi0 step0 :: ds).
    split; [| split].
    + cbn [Cartpole.discretize_from]. unfold py_nth. rewrite Hs0.
      unfold Cartpole.numpy_arange. cbn [fst snd].
      destruct (Qeq_bool step0 0) eqn:E.
      { apply Qeq_bool_iff in E. contradiction. }
      rewrite Hds, append_all_id, <- app_assoc. reflexivity.
    + simpl. now rewrite Hlen.
    + intros j lo hi step Hj Hs. destruct j as [| j].
      * simpl in Hj. injection Hj as <- <-. rewrite Nat.add_0_r in Hs.
        rewrite Hs0 in Hs. injection Hs as <-. reflexivity.
      * simpl in Hj. simpl. apply Hnth; auto.
        now replace (S idx + j)%nat with (idx + S j)%nat by lia.
Qed.

(** C8, as the code has it: [discretize_observation_space] has no check
    for an empty sequence.  When every factor has a step and no step is
    zero it raises nothing and returns one domain per factor, the
    [numpy.arange] sequence of its (min, max, step); for a factor with
    max <= min and a positive step that domain is the empty list. *)
Theorem discretize_observation_space_no_error
    (bounds : list (Q * Q)) (steps : list Q) :
  (length bounds <= length steps)%nat ->
  (forall j step, (j < length bounds)%nat ->
     nth_error steps j = Some step -> ~ step == 0) ->
  exists domains,
    Cartpole.discretize_observation_space bounds steps = Ok domains /\
    length domains = length bounds /\
    forall j lo hi step,
      nth_error bounds j = Some (lo, hi) -> nth_error steps j = Some step ->
      nth_error domains j = Some (Cartpole.arange_values lo hi step) /\
      (hi <= lo -> 0 < step -> nth_error domains j = Some []).
Proof.
  intros Hlen Hnz.
  destruct (discretize_from_ok steps bounds 0 []) as (ds & Hds & Hl & Hnth).
  { intros j b Hj.
    assert (Hjb : (j < length bounds)%nat) by (apply nth_error_Some; congruence).
    destruct (nth_error steps j) as [step |] eqn:Es.
    - exists step. split; auto. apply (Hnz j); auto.
    - apply nth_error_None in Es. lia. }
  exists ds. split; [exact Hds | split; [exact Hl |]].
  intros j lo hi step Hj Hs.
  specialize (Hnth j lo hi step Hj Hs).
  split; auto.
  intros Hle Hpos. rewrite Hnth. now rewrite arange_values_empty.
Qed.

Lemma discretize_observation_space_no_error_witness :
  exists domains,
    Cartpole.discretize_observation_space [(1, 0); (0, 1)] [1; 3 # 10] = Ok domains /\
    length domains = length [(1, 0); (0, 1)] /\
    forall j lo hi step,
      nth_error [(1, 0); (0, 1)] j = Some (lo, hi) ->
      nth_error [1; 3 # 10] j = Some step ->
      nth_error domains j = Some (Cartpole.arange_values lo hi step) /\
      (hi <= lo -> 0 < step -> nth_error domains j = Some []).
Proof.
  apply (discretize_observation_space_no_error [(1, 0); (0, 1)] [1; 3 # 10]).
  - simpl. lia.
  - intros j step Hj Hs.
    destruct j as [| [| j]]; simpl in Hs; try (simpl in Hj; lia);
      injection Hs as <-; discriminate.
Defined.

(** C8 as stated fails: the factor (min, max, step) = (1, 0, 1) has
    min >= max and an empty sequence, and the construction returns
    normally, with the empty domain in the result.  ([QTable.__init__]
    accepts that result too: the table then has an axis of length 0.) *)
Lemma discretize_observation_space_empty_domain :
  Cartpole.numpy_arange 1 0 1 = Ok [] /\
  Cartpole.discretize_observation_space [(1, 0)] [1] = Ok [[]] /\
  is_error (Cartpole.discretize_observation_space [(1, 0)] [1]) = false /\
  QTable._table (QTable.__init__ [[]] [0%Z; 1%Z] (1 # 2) 1 (1 # 100))
  = Numpy.Arr [].
Proof. repeat split. Qed.

(** ** Dicts *)

Section DictFacts.
Import QTable.

Context {K : Type} (eqb : K -> K -> bool).

Lemma dict_get_enumerate_absent (k : K) (keys : list K) :
  forall idx d,
  (forall x, In x keys -> eqb x k = false) ->
  dict_get eqb k (dict_of_enumerate idx keys d) = dict_get eqb k d.
Proof.
  induction keys as [| x tl IH]; intros idx d Habs; simpl; auto.
  rewrite IH by (intros y Hy; apply Habs; now right).
  simpl. now rewrite (Habs x (or_introl eq_refl)).
Qed.

Lemma dict_get_enumerate_found (k : K) (keys : list K) :
  forall idx d i,
  dict_get eqb k (dict_of_enumerate idx keys d) = Ok i ->
  dict_get eqb k d = Ok i \/
  exists j x, i = (idx + j)%nat /\ nth_error keys j = Some x /\ eqb x k = true.
Proof.
  induction keys as [| x tl IH]; intros idx d i Hget; simpl in Hget; auto.
  apply IH in Hget. destruct Hget as [Hget | (j & y & -> & Hj & Hy)].
  - simpl in Hget. destruct (eqb x k) eqn:E; auto.
    injection Hget as <-. right. exists 0%nat, x. rewrite Nat.add_0_r. auto.
  - right. exists (S j), y. split; [lia | auto].
Qed.

Lemma dict_get_enumerate_present (k : K) (keys : list K) :
  forall idx d,
  (exists x, In x keys /\ eqb x k = true) \/ (exists i, dict_get eqb k d = Ok i) ->
  exists i, dict_get eqb k (dict_of_enumerate idx keys d) = Ok i.
Proof.
  induction keys as [| x tl IH]; intros idx d Hpre; simpl.
  - destruct Hpre as [(y & [] & _) | H]; auto.
  - apply IH. destruct Hpre as [(y & [-> | Hin] & Hy) | (i & Hi)].
    + right. exists idx. simpl. now rewrite Hy.
    + left. eauto.
    + right. simpl. destruct (eqb x k); eauto.
Qed.

Lemma index_of_present (k : K) (keys : list K) :
  (exists x, In x keys /\ eqb x k = true) ->
  exists i x, dict_get eqb k (index_of keys) = Ok i /\
              nth_error keys i = Some x /\ eqb x k = true.
Proof.
  intros Hpre.
  destruct (dict_get_enumerate_present k keys 0 [] (or_introl Hpre)) as [i Hi].
  exists i. unfold index_of.
  destruct (dict_get_enumerate_found k keys 0 [] i Hi) as [H | (j & x & -> & Hj & Hx)].
  - discriminate.
  - exists x. auto.
Qed.

Lemma index_of_absent (k : K) (keys : list K) :
  (forall x, In x keys -> eqb x k = false) ->
  dict_get eqb k (index_of keys) = Raise KeyError.
Proof.
  intros Habs. unfold index_of. now rewrite dict_get_enumerate_absent.
Qed.

End DictFacts.

Lemma index_of_action (actions : list Z) (i : nat) (a : Z) :
  NoDup actions -> nth_error actions i = Some a ->
  QTable.dict_get Z.eqb a (QTable.index_of actions) = Ok i.
Proof.
  intros Hnd Hi.
  destruct (index_of_present Z.eqb a actions) as (j & x & Hget & Hj & Hx).
  { exists a. split; [eapply nth_error_In; eauto | apply Z.eqb_refl]. }
  apply Z.eqb_eq in Hx. subst x.
  assert (j = i).
  { apply (proj1 (NoDup_nth_error actions) Hnd).
    - apply nth_error_Some. congruence.
    - congruence. }
  now subst j.
Qed.

Lemma index_of_action_absent (actions : list Z) (a : Z) :
  ~ In a actions ->
  QTable.dict_get Z.eqb a (QTable.index_of actions) = Raise KeyError.
Proof.
  intros Hnin. apply index_of_absent. intros x Hx.
  apply Z.eqb_neq. intros ->. contradiction.
Qed.

Lemma index_of_factor (domain : list Q) (x : Q) :
  QTable.in_domain x domain ->
  exists i, QTable.dict_get Qeq_bool x (QTable.index_of domain) = Ok i /\
            (i < length domain)%nat.
Proof.
  intros (y & Hin & Heq).
  destruct (index_of_present Qeq_bool x domain) as (i & z & Hget & Hi & _).
  { exists y. split; auto. now apply Qeq_bool_iff. }
  exists i. split; auto. apply nth_error_Some. congruence.
Qed.

Lemma index_of_factor_absent (domain : list Q) (x : Q) :
  ~ QTable.in_domain x domain ->
  QTable.dict_get Qeq_bool x (QTable.index_of domain) = Raise KeyError.
Proof.
  intros Hout. apply index_of_absent. intros y Hy.
  destruct (Qeq_bool y x) eqn:E; auto.
  exfalso. apply Hout. exists y. split; auto. now apply Qeq_bool_iff.
Qed.

(** ** Arrays *)

Lemma nth_error_list_update {A : Type} (f : A -> A) (l : list A) :
  forall i j,
  nth_error (Numpy.list_update l i f) j =
  if Nat.eqb i j then option_map f (nth_error l j) else nth_error l j.
Proof.
  induction l as [| x tl IH]; intros i j.
  - destruct i, j; simpl; auto. destruct (Nat.eqb i j); reflexivity.
  - destruct i as [| i], j as [| j]; simpl; auto.
Qed.

Lemma length_list_update {A : Type} (f : A -> A) (l : list A) :
  forall i, length (Numpy.list_update l i f) = length l.
Proof.
  induction l as [| x tl IH]; intros [| i]; simpl; auto.
Qed.

Lemma get_path_app (a : Numpy.ndarray) (p q : list nat) :
  forall sub, Numpy.get_path a p = Some sub ->
  Numpy.get_path a (p ++ q) = Numpy.get_path sub q.
Proof.
  revert a. induction p as [| i p IH]; intros a sub H; simpl in *.
  - now injection H as ->.
  - destruct a as [x | items]; [discriminate |].
    destruct (nth_error items i); [| discriminate]. now apply IH.
Qed.

Lemma get_set_path_same (p : list nat) (v : Numpy.ndarray) :
  forall a old, Numpy.get_path a p = Some old ->
  Numpy.get_path (Numpy.set_path a p v) p = Some v.
Proof.
  induction p as [| i p IH]; intros a old H; simpl in *; auto.
  destruct a as [x | items]; [discriminate |].
  destruct (nth_error items i) as [sub |] eqn:E; [| discriminate].
  rewrite nth_error_list_update, Nat.eqb_refl, E. simpl. eapply IH; eauto.
Qed.

Lemma get_set_path_other (p : list nat) (v : Numpy.ndarray) :
  forall a p', length p' = length p -> p' <> p ->
  Numpy.get_path (Numpy.set_path a p v) p' = Numpy.get_path a p'.
Proof.
  induction p as [| i p IH]; intros a p' Hlen Hne.
  - destruct p'; [congruence | discriminate].
  - destruct p' as [| i' p']; [discriminate |].
    simpl. destruct a as [x | items]; auto.
    rewrite nth_error_list_update.
    destruct (Nat.eqb i i') eqn:E; auto.
    apply Nat.eqb_eq in E. subst i'.
    destruct (nth_error items i) as [sub |]; simpl; auto.
    apply IH; [simpl in Hlen; lia | congruence].
Qed.

Lemma has_shape_set_path (p : list nat) (v : Numpy.ndarray) :
  forall shape a old,
  Numpy.has_shape shape a -> Numpy.get_path a p = Some old ->
  Numpy.has_shape (skipn (length p) shape) v ->
  Numpy.has_shape shape (Numpy.set_path a p v).
Proof.
  induction p as [| i p IH]; intros shape a old Hsh Hget Hv; simpl in *; auto.
  destruct a as [x | items]; [discriminate |].
  destruct shape as [| n rest]; [contradiction |].
  destruct Hsh as [Hlen Hall]. simpl in Hv.
  destruct (nth_error items i) as [sub |] eqn:E; [| discriminate].
  split; [now rewrite length_list_update |].
  apply Forall_forall. intros y Hy.
  apply In_nth_error in Hy. destruct Hy as [j Hj].
  rewrite nth_error_list_update in Hj.
  rewrite Forall_forall in Hall.
  destruct (Nat.eqb i j) eqn:Eij.
  - apply Nat.eqb_eq in Eij. subst j. rewrite E in Hj. simpl in Hj.
    injection Hj as <-. apply (IH rest sub old); auto.
    apply Hall. eapply nth_error_In; eauto.
  - apply Hall. eapply nth_error_In; eauto.
Qed.

Lemma has_shape_zeros (shape : list nat) :
  Numpy.has_shape shape (Numpy.zeros shape).
Proof.
  induction shape as [| n rest IH]; simpl; auto.
  split; [apply repeat_length |].
  apply Forall_forall. intros x Hx. apply repeat_spec in Hx. now subst.
Qed.

Lemma scalars_of_row (items : list Numpy.ndarray) :
  Forall (Numpy.has_shape []) items ->
  exists qs, Numpy.scalars items = Some qs /\
    length qs = length items /\
    forall i, nth_error items i = option_map Numpy.Scalar (nth_error qs i).
Proof.
  induction 1 as [| x tl Hx Htl (qs & Hqs & Hlen & Hnth)].
  - exists []. repeat split; auto. intros [| i]; reflexivity.
  - destruct x as [q | l]; [| contradiction].
    exists (q :: qs). simpl. rewrite Hqs. repeat split; auto.
    intros [| i]; simpl; auto.
Qed.

(** ** argmax *)

Lemma argmax_from_spec (xs : list Q) :
  forall pre best_idx best,
  nth_error pre best_idx = Some best ->
  (forall j y, nth_error pre j = Some y -> y <= best) ->
  (forall j y, (j < best_idx)%nat -> nth_error pre j = Some y -> y < best) ->
  exists m,
    nth_error (pre ++ xs) (Numpy.argmax_from best_idx best (length pre) xs) = Some m /\
    (forall j y, nth_error (pre ++ xs) j = Some y -> y <= m) /\
    (forall j y, (j < Numpy.argmax_from best_idx best (length pre) xs)%nat ->
       nth_error (pre ++ xs) j = Some y -> y < m).
Proof.
  induction xs as [| x tl IH]; intros pre best_idx best Hbest Hmax Hfirst.
  - simpl. rewrite app_nil_r. exists best. auto.
  - simpl.
    assert (Hlt : (best_idx < length pre)%nat) by (apply nth_error_Some; congruence).
    replace (pre ++ x :: tl) with ((pre ++ [x]) ++ tl) by (now rewrite <- app_assoc).
    replace (S (length pre)) with (length (pre ++ [x])) by (rewrite length_app; simpl; lia).
    destruct (Qltb best x) eqn:E.
    + apply Qltb_true in E. apply IH.
      * rewrite nth_error_app2 by lia. now rewrite Nat.sub_diag.
      * intros j y Hj. destruct (lt_dec j (length pre)) as [Hjl | Hjl].
        -- rewrite nth_error_app1 in Hj by lia. specialize (Hmax j y Hj). lra.
        -- rewrite nth_error_app2 in Hj by lia.
           destruct (j - length pre)%nat as [| k]; simpl in Hj.
           ++ injection Hj as <-. lra.
           ++ destruct k; discriminate.
      * intros j y Hjl Hj. rewrite nth_error_app1 in Hj by lia.
        specialize (Hmax j y Hj). lra.
    + apply Qltb_false in E. apply IH.
      * rewrite nth_error_app1 by lia. exact Hbest.
      * intros j y Hj. destruct (lt_dec j (length pre)) as [Hjl | Hjl].
        -- rewrite nth_error_app1 in Hj by lia. eauto.
        -- rewrite nth_error_app2 in Hj by lia.
           destruct (j - length pre)%nat as [| k]; simpl in Hj.
           ++ now injection Hj as <-.
           ++ destruct k; discriminate.
      * intros j y Hjl Hj. rewrite nth_error_app1 in Hj by lia. eauto.
Qed.

Lemma argmax_spec (xs : list Q) :
  xs <> [] ->
  exists i m,
    Numpy.argmax xs = Ok i /\ nth_error xs i = Some m /\
    (forall j y, nth_error xs j = Some y -> y <= m) /\
    (forall j y, (j < i)%nat -> nth_error xs j = Some y -> y < m).
Proof.
  intros Hne. destruct xs as [| x tl]; [congruence |].
  destruct (argmax_from_spec tl [x] 0%nat x) as (m & Hm & Hmax & Hfirst).
  - reflexivity.
  - intros [| j] y Hj; simpl in Hj; [injection Hj as <-; lra |].
    destruct j; discriminate.
  - intros j y Hj. lia.
  - exists (Numpy.argmax_from 0 x 1 tl), m. simpl in *. auto.
Qed.

(** ** Resolving a state key *)

Section Resolve.
Import Numpy QTable.

Variable self : QTable.

Lemma skipn_cons_nth {A : Type} (l : list A) :
  forall idx d ds, skipn idx l = d :: ds ->
  nth_error l idx = Some d /\ skipn (S idx) l = ds.
Proof.
  induction l as [| x tl IH]; intros idx d ds H.
  - destruct idx; discriminate.
  - destruct idx as [| idx]; simpl in H.
    + injection H as -> ->. auto.
    + apply IH in H. exact H.
Qed.

Lemma skipn_nil_nth {A : Type} (l : list A) :
  forall idx, skipn idx l = [] -> nth_error l idx = None.
Proof.
  induction l as [| x tl IH]; intros idx H.
  - now destruct idx.
  - destruct idx as [| idx]; simpl in H; [discriminate | now apply IH].
Qed.

Lemma key_indices_in_domain (domains : list (list Factor)) :
  forall state, Forall2 in_domain state domains ->
  exists path, key_indices (map index_of domains) state = Ok path /\
               Forall2 lt path (map (@length Factor) domains).
Proof.
  intros state H. induction H as [| x dom state' domains' Hx _ (path & Hp & Hlt)].
  - exists []. split; constructor.
  - destruct (index_of_factor dom x Hx) as (i & Hi & Hbound).
    exists (i :: path). cbn [key_indices map]. rewrite Hi, Hp. split; auto.
Qed.

Lemma key_indices_out_of_domain (domains : list (list Factor)) :
  forall state j x dom,
  nth_error state j = Some x -> nth_error domains j = Some dom ->
  ~ in_domain x dom ->
  exists e, key_indices (map index_of domains) state = Raise e.
Proof.
  induction domains as [| d0 rest IH]; intros state j x dom Hs Hd Hout.
  - destruct j; discriminate.
  - destruct state as [| s0 state']; [destruct j; discriminate |].
    cbn [key_indices map]. destruct j as [| j]; simpl in Hs, Hd.
    + injection Hs as ->. injection Hd as ->.
      rewrite (index_of_factor_absent dom x Hout). eauto.
    + destruct (dict_get Qeq_bool s0 (index_of d0)); eauto.
      destruct (IH state' j x dom Hs Hd Hout) as [e He].
      rewrite He. eauto.
Qed.

(** The loop of [_get_state_values] follows the indices of the key, down
    the table. *)
Lemma drill_ok :
  forall state idx dim path dims rest,
  key_indices (skipn idx (_states_idxs self)) state = Ok path ->
  Forall2 lt path dims ->
  has_shape (dims ++ rest) (v_data dim) ->
  exists row,
    drill self idx state dim = Ok (mkView (v_path dim ++ path) row) /\
    get_path (v_data dim) path = Some row /\
    has_shape rest row.
Proof.
  induction state as [| x state' IH]; intros idx dim path dims rest Hkey Hlt Hsh.
  - simpl in Hkey. injection Hkey as <-. inversion Hlt; subst.
    exists (v_data dim). simpl. rewrite app_nil_r.
    destruct dim; auto.
  - simpl in Hkey.
    destruct (skipn idx (_states_idxs self)) as [| d ds] eqn:Eskip; [discriminate |].
    apply skipn_cons_nth in Eskip. destruct Eskip as [Hnth <-].
    destruct (dict_get Qeq_bool x d) as [i |] eqn:Ei; [| discriminate].
    destruct (key_indices (skipn (S idx) (_states_idxs self)) state')
      as [path' |] eqn:Ep; [| discriminate].
    injection Hkey as <-.
    inversion Hlt as [| i0 n p0 dims' Hin Hlt' E1 E2]; subst.
    simpl in Hsh. destruct (v_data dim) as [q | items] eqn:Edata; [contradiction |].
    destruct Hsh as [Hlen Hall].
    destruct (nth_error items i) as [sub |] eqn:Esub.
    2: { apply nth_error_None in Esub. lia. }
    assert (Hsub : has_shape (dims' ++ rest) sub).
    { rewrite Forall_forall in Hall. apply Hall. eapply nth_error_In; eauto. }
    destruct (IH (S idx) (mkView (v_path dim ++ [i]) sub) path' dims' rest)
      as (row & Hdrill & Hget & Hrow); auto.
    exists row. cbn [drill]. unfold py_nth. rewrite Hnth, Ei, Edata.
    cbn [getitem]. unfold py_nth. rewrite Esub.
    rewrite Hdrill. cbn [v_path v_data get_path]. rewrite Esub, <- app_assoc.
    auto.
Qed.

Lemma drill_raises :
  forall state idx dim e,
  key_indices (skipn idx (_states_idxs self)) state = Raise e ->
  exists e', drill self idx state dim = Raise e'.
Proof.
  induction state as [| x state' IH]; intros idx dim e Hkey; [discriminate |].
  simpl in Hkey. cbn [drill]. unfold py_nth.
  destruct (skipn idx (_states_idxs self)) as [| d ds] eqn:Eskip.
  - rewrite (skipn_nil_nth _ _ Eskip). eauto.
  - apply skipn_cons_nth in Eskip. destruct Eskip as [Hnth <-].
    rewrite Hnth.
    destruct (dict_get Qeq_bool x d) as [i |]; eauto.
    destruct (getitem (v_data dim) i) as [sub |]; eauto.
    destruct (key_indices (skipn (S idx) (_states_idxs self)) state')
      as [path' | e0] eqn:Ep; [discriminate |].
    now apply (IH (S idx) _ e0).
Qed.

Hypothesis Hwf : well_formed self.

(** The row of an in-domain state: its index path, and the numbers in
    it, one per action. *)
Lemma get_state_values_ok (state : State) :
  state_in_domain self state ->
  exists path items qs,
    key_indices (_states_idxs self) state = Ok path /\
    length path = length (observation_space self) /\
    _get_state_values self state = Ok (mkView path (Arr items)) /\
    get_path (_table self) path = Some (Arr items) /\
    scalars items = Some qs /\
    length qs = length (actions self) /\
    (forall i, nth_error items i = option_map Scalar (nth_error qs i)).
Proof.
  intros Hin. destruct Hwf as [Hidx _ Hshape _].
  destruct (key_indices_in_domain _ _ Hin) as (path & Hpath & Hlt).
  rewrite <- Hidx in Hpath.
  destruct (drill_ok state 0 (mkView [] (_table self)) path
              (map (@length Factor) (observation_space self))
              [length (actions self)])
    as (row & Hdrill & Hget & Hrow); auto.
  simpl in Hrow. destruct row as [q | items]; [contradiction |].
  destruct Hrow as [Hlen Hall].
  destruct (scalars_of_row items Hall) as (qs & Hqs & Hlq & Hnth).
  exists path, items, qs. repeat split; auto.
  - apply Forall2_length in Hlt. now rewrite length_map in Hlt.
  - congruence.
Qed.

Lemma get_state_values_raises (state : State) :
  state_out_of_domain self state ->
  exists e, _get_state_values self state = Raise e.
Proof.
  intros (j & x & dom & Hs & Hd & Hout). destruct Hwf as [Hidx _ _ _].
  destruct (key_indices_out_of_domain _ _ j x dom Hs Hd Hout) as [e He].
  rewrite <- Hidx in He. now apply (drill_raises state 0 _ e).
Qed.

(** The cell of an in-domain state-action pair. *)
Lemma get_qvalue_ok (state : State) (a : Action) (i : nat) :
  state_in_domain self state -> nth_error (actions self) i = Some a ->
  exists path q,
    key_indices (_states_idxs self) state = Ok path /\
    length path = length (observation_space self) /\
    cell_index self state a = Ok (path ++ [i]) /\
    _get_qvalue self state a = Ok (Scalar q) /\
    get_path (_table self) (path ++ [i]) = Some (Scalar q).
Proof.
  intros Hin Ha.
  destruct (get_state_values_ok state Hin)
    as (path & items & qs & Hkey & Hlen & Hview & Hget & Hqs & Hlq & Hnth).
  assert (Hidx : dict_get Z.eqb a (_actions_idxs self) = Ok i).
  { destruct Hwf as [_ Hact _ Hnd]. rewrite Hact. now apply index_of_action. }
  assert (Hi : (i < length qs)%nat).
  { rewrite Hlq. apply nth_error_Some. congruence. }
  destruct (nth_error qs i) as [q |] eqn:Eq.
  2: { apply nth_error_None in Eq. lia. }
  specialize (Hnth i). rewrite Eq in Hnth. simpl in Hnth.
  exists path, q. repeat split; auto.
  - unfold cell_index. now rewrite Hkey, Hidx.
  - unfold _get_qvalue. rewrite Hview, Hidx. cbn [v_data getitem].
    unfold py_nth. now rewrite Hnth.
  - rewrite (get_path_app _ path [i] _ Hget). simpl. now rewrite Hnth.
Qed.

End Resolve.

(** ** The Q-table *)

Section Table.
Import Numpy QTable.

Lemma init_well_formed (obs : list (list Factor)) (acts : list Action)
    (lr dr decay : Q) :
  NoDup acts -> well_formed (__init__ obs acts lr dr decay).
Proof.
  intros Hnd. split; simpl; auto. apply has_shape_zeros.
Qed.

Lemma set_table_well_formed (self : QTable) (p : list nat) (old v : Q) :
  well_formed self ->
  get_path (_table self) p = Some (Scalar old) ->
  length p = S (length (observation_space self)) ->
  well_formed (set_table (set_path (_table self) p (Scalar v)) self).
Proof.
  intros [Hidx Hact Hshape Hnd] Hget Hlen. split; simpl; auto.
  apply (has_shape_set_path p (Scalar v) _ _ (Scalar old)); auto.
  rewrite skipn_all2; [exact I |].
  rewrite length_app, length_map. simpl. lia.
Qed.

Variable self : QTable.
Hypothesis Hwf : well_formed self.

Lemma get_qvalue_raises (state : State) (action : Action) :
  state_out_of_domain self state \/ ~ In action (actions self) ->
  exists e, _get_qvalue self state action = Raise e.
Proof.
  intros H. unfold _get_qvalue.
  destruct (_get_state_values self state) as [v | e] eqn:Ev; eauto.
  destruct H as [Hout | Hnin].
  - destruct (get_state_values_raises self Hwf state Hout) as [e He]. congruence.
  - destruct Hwf as [_ Hact _ _]. rewrite Hact.
    rewrite (index_of_action_absent _ _ Hnin). eauto.
Qed.

Lemma get_max_action_raises (state : State) :
  state_out_of_domain self state ->
  exists e, _get_max_action self state = Raise e.
Proof.
  intros Hout. unfold _get_max_action.
  destruct (get_state_values_raises self Hwf state Hout) as [e ->]. eauto.
Qed.

(** Every value of the row of an in-domain state is the cell of the
    action at its position. *)
Lemma state_row (state : State) :
  state_in_domain self state ->
  exists path items qs,
    key_indices (_states_idxs self) state = Ok path /\
    length path = length (observation_space self) /\
    _get_state_values self state = Ok (mkView path (Arr items)) /\
    scalars items = Some qs /\
    length qs = length (actions self) /\
    forall j a, nth_error (actions self) j = Some a ->
      exists q, nth_error qs j = Some q /\
        _get_qvalue self state a = Ok (Scalar q).
Proof.
  intros Hin.
  destruct (get_state_values_ok self Hwf state Hin)
    as (path & items & qs & Hkey & Hlen & Hview & Hget & Hqs & Hlq & Hnth).
  exists path, items, qs. repeat split; auto.
  intros j a Ha.
  destruct (get_qvalue_ok self Hwf state a j Hin Ha)
    as (path' & q & Hkey' & _ & _ & Hq & Hcell).
  exists q. split; auto.
  rewrite Hkey in Hkey'. injection Hkey' as <-.
  rewrite (get_path_app _ path [j] _ Hget) in Hcell. simpl in Hcell.
  rewrite Hnth in Hcell.
  destruct (nth_error qs j); simpl in Hcell; congruence.
Qed.

(** The greedy action of an in-domain state. *)
Lemma get_max_action_ok (state : State) :
  state_in_domain self state -> actions self <> [] ->
  exists i a m,
    _get_max_action self state = Ok (a, m) /\
    nth_error (actions self) i = Some a /\
    _get_qvalue self state a = Ok (Scalar m) /\
    (forall a', In a' (actions self) ->
       exists v, _get_qvalue self state a' = Ok (Scalar v) /\ v <= m) /\
    (forall j a', (j < i)%nat -> nth_error (actions self) j = Some a' ->
       exists v, _get_qvalue self state a' = Ok (Scalar v) /\ v < m).
Proof.
  intros Hin Hne.
  destruct (state_row state Hin)
    as (path & items & qs & Hkey & Hlen & Hview & Hqs & Hlq & Hrow).
  assert (Hqne : qs <> []).
  { intros ->. destruct (actions self); [congruence | discriminate]. }
  destruct (argmax_spec qs Hqne) as (i & m & Harg & Hm & Hmax & Hfirst).
  assert (Hi : (i < length (actions self))%nat).
  { rewrite <- Hlq. apply nth_error_Some. congruence. }
  destruct (nth_error (actions self) i) as [a |] eqn:Ea.
  2: { apply nth_error_None in Ea. lia. }
  exists i, a, m. repeat split; auto.
  - unfold _get_max_action. rewrite Hview. cbn [v_data]. rewrite Hqs, Harg.
    unfold py_nth. now rewrite Ea, Hm.
  - destruct (Hrow i a Ea) as (q & Hq & Hget). congruence.
  - intros a' Ha'. apply In_nth_error in Ha'. destruct Ha' as [j Hj].
    destruct (Hrow j a' Hj) as (q & Hq & Hget). eauto.
  - intros j a' Hji Hj.
    destruct (Hrow j a' Hj) as (q & Hq & Hget). eauto.
Qed.

(** What a call of [process_step] with in-domain arguments does. *)
Lemma process_step_ok (state : State) (action : Action) (i : nat)
    (new_state : State) (reward : Q) :
  state_in_domain self state -> nth_error (actions self) i = Some action ->
  state_in_domain self new_state ->
  exists path old mx,
    key_indices (_states_idxs self) state = Ok path /\
    length path = length (observation_space self) /\
    _get_qvalue self state action = Ok (Scalar old) /\
    get_path (_table self) (path ++ [i]) = Some (Scalar old) /\
    max_over_actions self new_state mx /\
    process_step state action new_state reward self =
      (Ok tt,
       set_table
         (set_path (_table self) (path ++ [i])
            (Scalar ((1 - learning_rate self) * old
                     + learning_rate self * (reward + discount_rate self * mx))))
         self).
Proof.
  intros Hin Ha Hin'.
  destruct (get_qvalue_ok self Hwf state action i Hin Ha)
    as (path & old & Hkey & Hlen & Hcell & Hold & Hget).
  assert (Hne : actions self <> []).
  { intros E. rewrite E in Ha. destruct i; discriminate. }
  destruct (get_max_action_ok new_state Hin' Hne)
    as (k & a & mx & Hbest & Hk & Hmx & Hmax & _).
  exists path, old, mx. repeat split; auto.
  - exists a. split; auto. eapply nth_error_In; eauto.
  - unfold process_step. rewrite Hold, Hbest. cbn [snd nd_map].
    unfold _update_qvalue.
    destruct (get_state_values_ok self Hwf state Hin)
      as (path' & items & qs & Hkey' & _ & Hview & Hrow & _ & _ & Hnth).
    rewrite Hkey in Hkey'. injection Hkey' as <-.
    rewrite Hview.
    assert (Hidx : dict_get Z.eqb action (_actions_idxs self) = Ok i).
    { destruct Hwf as [_ Hact _ Hnd]. rewrite Hact. now apply index_of_action. }
    rewrite Hidx. cbn [v_data v_path getitem]. unfold py_nth.
    rewrite (get_path_app _ path [i] _ Hrow) in Hget. simpl in Hget.
    destruct (nth_error items i) as [cell |]; [| discriminate].
    injection Hget as ->. reflexivity.
Qed.

(** A call with in-domain arguments keeps the object well formed. *)
Lemma process_step_well_formed (state : State) (action : Action)
    (new_state : State) (reward : Q) :
  state_in_domain self state -> In action (actions self) ->
  state_in_domain self new_state ->
  well_formed (snd (process_step state action new_state reward self)).
Proof.
  intros Hin Ha Hin'. apply In_nth_error in Ha. destruct Ha as [i Hi].
  destruct (process_step_ok state action i new_state reward Hin Hi Hin')
    as (path & old & m & _ & Hlen & _ & Hget & _ & ->).
  apply (set_table_well_formed self _ old); auto.
  rewrite length_app. simpl. lia.
Qed.

Lemma process_step_raises (state : State) (action : Action)
    (new_state : State) (reward : Q) :
  state_out_of_domain self state \/ ~ In action (actions self) \/
  state_out_of_domain self new_state ->
  exists e, process_step state action new_state reward self = (Raise e, self).
Proof.
  intros H. unfold process_step.
  destruct (_get_qvalue self state action) as [old | e] eqn:Eold; eauto.
  destruct H as [H | [H | H]].
  - destruct (get_qvalue_raises state action (or_introl H)). congruence.
  - destruct (get_qvalue_raises state action (or_intror H)). congruence.
  - destruct (get_max_action_raises new_state H) as [e ->]. eauto.
Qed.

End Table.

(** An error of [process_step] leaves the object as it was: each raise
    comes before the assignment to the cell. *)
Lemma process_step_error_unchanged (self : QTable.QTable)
    (state : list Q) (action : Z) (new_state : list Q) (reward : Q) (e : exn) :
  fst (QTable.process_step state action new_state reward self) = Raise e ->
  snd (QTable.process_step state action new_state reward self) = self.
Proof.
  unfold QTable.process_step, QTable._update_qvalue.
  repeat match goal with
  | |- context [match ?x with Ok _ => _ | Raise _ => _ end] => destruct x
  end; simpl; auto; discriminate.
Qed.

(** ** The example table *)

Lemma example_table_well_formed : QTable.well_formed QTable.example_table.
Proof.
  split; simpl; auto.
  - repeat (split; [reflexivity |]); repeat constructor.
  - repeat constructor; simpl; intuition discriminate.
Qed.

Lemma example_state_in_domain (x : Q) :
  In x [0; 1; 2] -> QTable.state_in_domain QTable.example_table [x].
Proof.
  intros Hx. constructor; [| constructor].
  exists x. split; [exact Hx | reflexivity].
Qed.

Lemma example_state_out_of_domain :
  QTable.state_out_of_domain QTable.example_table [5].
Proof.
  exists 0%nat, 5, [0; 1; 2]. repeat split.
  intros (y & Hy & Heq). simpl in Hy.
  destruct Hy as [<- | [<- | [<- | []]]]; discriminate.
Qed.

(** ** The claims on the Q-table *)

(** C1: for a state, an action, a next state and a reward whose
    components are all in the table's domains and action set,
    [process_step] returns normally and leaves in the cell of (s, a) the
    value (1 - learning_rate) * old + learning_rate * (r + discount_rate
    * m), where old is the value the cell had and m the maximum over all
    actions of the values at the next state; the two rates are fields of
    the object that the call does not change. *)
Theorem process_step_bellman (self : QTable.QTable) (state : list Q)
    (action : Z) (new_state : list Q) (reward : Q) :
  QTable.well_formed self ->
  QTable.state_in_domain self state -> In action (QTable.actions self) ->
  QTable.state_in_domain self new_state ->
  exists old m self',
    QTable._get_qvalue self state action = Ok (Numpy.Scalar old) /\
    QTable.max_over_actions self new_state m /\
    QTable.process_step state action new_state reward self = (Ok tt, self') /\
    QTable._get_qvalue self' state action =
      Ok (Numpy.Scalar
            ((1 - QTable.learning_rate self) * old
             + QTable.learning_rate self
               * (reward + QTable.discount_rate self * m))) /\
    QTable.learning_rate self' = QTable.learning_rate self /\
    QTable.discount_rate self' = QTable.discount_rate self.
Proof.
  intros Hwf Hin Ha Hin'.
  apply In_nth_error in Ha. destruct Ha as [i Hi].
  destruct (process_step_ok self Hwf state action i new_state reward Hin Hi Hin')
    as (path & old & m & Hkey & Hlen & Hold & Hget & Hmax & Hstep).
  exists old, m. eexists.
  split; [exact Hold |]. split; [exact Hmax |]. split; [exact Hstep |].
  split; [| split; reflexivity].
  match goal with |- QTable._get_qvalue ?s' _ _ = _ => set (self' := s') end.
  assert (Hwf' : QTable.well_formed self').
  { apply (set_table_well_formed self _ old); auto.
    rewrite length_app. simpl. lia. }
  destruct (get_qvalue_ok self' Hwf' state action i Hin Hi)
    as (path' & q & Hkey' & _ & _ & Hq & Hget').
  change (QTable._states_idxs self') with (QTable._states_idxs self) in Hkey'.
  rewrite Hkey in Hkey'. injection Hkey' as <-.
  unfold self' in Hget'. cbn [QTable._table QTable.set_table] in Hget'.
  rewrite (get_set_path_same _ _ _ _ Hget) in Hget'.
  injection Hget' as <-. exact Hq.
Qed.

Lemma process_step_bellman_witness :
  exists old m self',
    QTable._get_qvalue QTable.example_table [0] 0%Z = Ok (Numpy.Scalar old) /\
    QTable.max_over_actions QTable.example_table [1] m /\
    QTable.process_step [0] 0%Z [1] 1 QTable.example_table = (Ok tt, self') /\
    QTable._get_qvalue self' [0] 0%Z =
      Ok (Numpy.Scalar
            ((1 - QTable.learning_rate QTable.example_table) * old
             + QTable.learning_rate QTable.example_table
               * (1 + QTable.discount_rate QTable.example_table * m))) /\
    QTable.learning_rate self' = QTable.learning_rate QTable.example_table /\
    QTable.discount_rate self' = QTable.discount_rate QTable.example_table.
Proof.
  apply (process_step_bellman QTable.example_table [0] 0%Z [1] 1).
  - exact example_table_well_formed.
  - apply example_state_in_domain. simpl. auto.
  - simpl. auto.
  - apply example_state_in_domain. simpl. auto.
Defined.

(** The worked example of the specification: the target is
    1 + 1.0 * 4 = 5 and the new value 0.5 * 0 + 0.5 * 5 = 2.5. *)
Example process_step_example :
  exists q,
    QTable._get_qvalue
      (snd (QTable.process_step [0] 0%Z [1] 1 QTable.example_table)) [0] 0%Z
    = Ok (Numpy.Scalar q) /\ q == 5 # 2.
Proof. eexists. split; reflexivity. Qed.

(** C5: for in-domain arguments [process_step] assigns to the table
    only, and there to one cell: the table afterwards is the table
    before with the cell at the index tuple of (s, a) overwritten by the
    new value (1 - learning_rate) * old + learning_rate * (r +
    discount_rate * m), which that cell then holds; every other index
    tuple, and so the value of every other state-action pair, holds what
    it held. *)
Theorem process_step_frame (self : QTable.QTable) (state : list Q)
    (action : Z) (new_state : list Q) (reward : Q) :
  QTable.well_formed self ->
  QTable.state_in_domain self state -> In action (QTable.actions self) ->
  QTable.state_in_domain self new_state ->
  exists cell old m self',
    QTable.cell_index self state action = Ok cell /\
    Numpy.get_path (QTable._table self) cell = Some (Numpy.Scalar old) /\
    QTable.max_over_actions self new_state m /\
    QTable.process_step state action new_state reward self = (Ok tt, self') /\
    self' = QTable.set_table (QTable._table self') self /\
    QTable._table self' =
      Numpy.set_path (QTable._table self) cell
        (Numpy.Scalar
           ((1 - QTable.learning_rate self) * old
            + QTable.learning_rate self
              * (reward + QTable.discount_rate self * m))) /\
    Numpy.get_path (QTable._table self') cell =
      Some (Numpy.Scalar
              ((1 - QTable.learning_rate self) * old
               + QTable.learning_rate self
                 * (reward + QTable.discount_rate self * m))) /\
    (forall p, length p = length cell -> p <> cell ->
       Numpy.get_path (QTable._table self') p =
       Numpy.get_path (QTable._table self) p) /\
    (forall s a p,
       QTable.state_in_domain self s -> In a (QTable.actions self) ->
       QTable.cell_index self s a = Ok p -> p <> cell ->
       QTable._get_qvalue self' s a = QTable._get_qvalue self s a).
Proof.
  intros Hwf Hin Ha Hin'.
  apply In_nth_error in Ha. destruct Ha as [i Hi].
  destruct (process_step_ok self Hwf state action i new_state reward Hin Hi Hin')
    as (path & old & m & Hkey & Hlen & Hold & Hget & Hmax & Hstep).
  destruct (get_qvalue_ok self Hwf state action i Hin Hi)
    as (path0 & q0 & Hkey0 & _ & Hcell & _ & _).
  rewrite Hkey in Hkey0. injection Hkey0 as <-.
  exists (path ++ [i]), old, m. eexists.
  split; [exact Hcell |]. split; [exact Hget |]. split; [exact Hmax |].
  split; [exact Hstep |].
  match goal with |- ?s' = _ /\ _ => set (self' := s') end.
  assert (Hwf' : QTable.well_formed self').
  { apply (set_table_well_formed self _ old); auto.
    rewrite length_app. simpl. lia. }
  split; [reflexivity |]. split; [reflexivity |]. split; [| split].
  - unfold self'. cbn [QTable._table QTable.set_table].
    eapply get_set_path_same. exact Hget.
  - intros p Hlp Hne. unfold self'. cbn [QTable._table QTable.set_table].
    now apply get_set_path_other.
  - intros s a p Hs Hain Hp Hne.
    apply In_nth_error in Hain. destruct Hain as [j Hj].
    destruct (get_qvalue_ok self Hwf s a j Hs Hj)
      as (ps & q & Hks & Hls & Hcs & Hq & Hgs).
    destruct (get_qvalue_ok self' Hwf' s a j Hs Hj)
      as (ps' & q' & Hks' & _ & _ & Hq' & Hgs').
    change (QTable._states_idxs self') with (QTable._states_idxs self) in Hks'.
    rewrite Hks in Hks'. injection Hks' as <-.
    rewrite Hcs in Hp. injection Hp as <-.
    unfold self' in Hgs'. cbn [QTable._table QTable.set_table] in Hgs'.
    rewrite get_set_path_other in Hgs'; auto.
    + rewrite Hq, Hq'. congruence.
    + rewrite !length_app. simpl. lia.
Qed.

Lemma process_step_frame_witness :
  exists cell old m self',
    QTable.cell_index QTable.example_table [0] 0%Z = Ok cell /\
    Numpy.get_path (QTable._table QTable.example_table) cell
      = Some (Numpy.Scalar old) /\
    QTable.max_over_actions QTable.example_table [1] m /\
    QTable.process_step [0] 0%Z [1] 1 QTable.example_table = (Ok tt, self') /\
    self' = QTable.set_table (QTable._table self') QTable.example_table /\
    QTable._table self' =
      Numpy.set_path (QTable._table QTable.example_table) cell
        (Numpy.Scalar
           ((1 - QTable.learning_rate QTable.example_table) * old
            + QTable.learning_rate QTable.example_table
              * (1 + QTable.discount_rate QTable.example_table * m))) /\
    Numpy.get_path (QTable._table self') cell =
      Some (Numpy.Scalar
              ((1 - QTable.learning_rate QTable.example_table) * old
               + QTable.learning_rate QTable.example_table
                 * (1 + QTable.discount_rate QTable.example_table * m))) /\
    (forall p, length p = length cell -> p <> cell ->
       Numpy.get_path (QTable._table self') p =
       Numpy.get_path (QTable._table QTable.example_table) p) /\
    (forall s a p,
       QTable.state_in_domain QTable.example_table s ->
       In a (QTable.actions QTable.example_table) ->
       QTable.cell_index QTable.example_table s a = Ok p -> p <> cell ->
       QTable._get_qvalue self' s a = QTable._get_qvalue QTable.example_table s a).
Proof.
  apply (process_step_frame QTable.example_table [0] 0%Z [1] 1).
  - exact example_table_well_formed.
  - apply example_state_in_domain. simpl. auto.
  - simpl. auto.
  - apply example_state_in_domain. simpl. auto.
Defined.

(** The write is a change here: the cell of ([0], 0) of the example
    table held 0 and holds 5/2 afterwards. *)
Example process_step_changes_cell :
  Numpy.get_path (QTable._table QTable.example_table) [0%nat; 0%nat]
    = Some (Numpy.Scalar 0) /\
  Numpy.get_path
    (QTable._table (snd (QTable.process_step [0] 0%Z [1] 1 QTable.example_table)))
    [0%nat; 0%nat] = Some (Numpy.Scalar ((1 - (1 # 2)) * 0 + (1 # 2) * (1 + 1 * 4))).
Proof. split; reflexivity. Qed.

(** C6: for an in-domain state of a table with at least one action,
    [_get_max_action] returns an action of the action set and a value;
    the value is the maximum over all actions of the values stored at
    the state, the returned action has that value, and every action
    before it in the action set has a strictly smaller one, so of
    several actions with the maximal value the first is returned.  The
    method only reads the object: it is a function of the object and the
    state, the same at every call on the same table. *)
Theorem get_max_action_greedy (self : QTable.QTable) (state : list Q) :
  QTable.well_formed self -> QTable.state_in_domain self state ->
  QTable.actions self <> [] ->
  exists i a m,
    QTable._get_max_action self state = Ok (a, m) /\
    nth_error (QTable.actions self) i = Some a /\
    QTable.max_over_actions self state m /\
    QTable._get_qvalue self state a = Ok (Numpy.Scalar m) /\
    (forall j a', (j < i)%nat -> nth_error (QTable.actions self) j = Some a' ->
       exists v, QTable._get_qvalue self state a' = Ok (Numpy.Scalar v) /\
                 v < m).
Proof.
  intros Hwf Hin Hne.
  destruct (get_max_action_ok self Hwf state Hin Hne)
    as (i & a & m & Hbest & Hi & Hm & Hmax & Hfirst).
  exists i, a, m. repeat split; auto.
  exists a. split; auto. eapply nth_error_In; eauto.
Qed.

Lemma get_max_action_greedy_witness :
  QTable.actions QTable.example_table <> [] /\
  exists i a m,
    QTable._get_max_action QTable.example_table [0] = Ok (a, m) /\
    nth_error (QTable.actions QTable.example_table) i = Some a /\
    QTable.max_over_actions QTable.example_table [0] m /\
    QTable._get_qvalue QTable.example_table [0] a = Ok (Numpy.Scalar m) /\
    (forall j a', (j < i)%nat ->
       nth_error (QTable.actions QTable.example_table) j = Some a' ->
       exists v, QTable._get_qvalue QTable.example_table [0] a'
                 = Ok (Numpy.Scalar v) /\ v < m).
Proof.
  split; [discriminate |].
  apply (get_max_action_greedy QTable.example_table [0]).
  - exact example_table_well_formed.
  - apply example_state_in_domain. simpl. auto.
  - discriminate.
Defined.

(** With all values equal the first action is the greedy one; with the
    values [2, 4] it is the second. *)
Example get_max_action_example :
  QTable._get_max_action QTable.example_table [0] = Ok (0%Z, 0) /\
  QTable._get_max_action QTable.example_table [1] = Ok (1%Z, 4).
Proof. split; reflexivity. Qed.

(** ** The exploration rate *)

Lemma decay_n_succ (n : nat) :
  forall self,
  QTable.decay_n (S n) self =
  snd (QTable.update_exploration_rate (QTable.decay_n n self)).
Proof.
  induction n as [| n IH]; intros self; [reflexivity |].
  change (QTable.decay_n (S (S n)) self)
    with (QTable.decay_n (S n) (snd (QTable.update_exploration_rate self))).
  rewrite IH. reflexivity.
Qed.

Lemma decay_n_exploration_decay (n : nat) :
  forall self,
  QTable.exploration_decay (QTable.decay_n n self) = QTable.exploration_decay self.
Proof.
  induction n as [| n IH]; intros self; [reflexivity |].
  simpl. now rewrite IH.
Qed.

Lemma decay_n_bounds (n : nat) (self : QTable.QTable) :
  0 < QTable.exploration_decay self -> QTable.exploration_decay self <= 1 ->
  0 <= QTable.exploration_rate self -> QTable.exploration_rate self <= 1 ->
  0 <= QTable.exploration_rate (QTable.decay_n n self) /\
  QTable.exploration_rate (QTable.decay_n n self) <= 1.
Proof.
  intros Hd0 Hd1 Hr0 Hr1. induction n as [| n [IH0 IH1]]; [auto |].
  rewrite decay_n_succ. simpl. rewrite decay_n_exploration_decay.
  split; nra.
Qed.

(** C7: [__init__] sets the exploration rate to 1; each call of
    [update_exploration_rate] replaces it by exploration_rate *
    (1 - exploration_decay); and with exploration_decay in (0, 1], along
    any number of calls after construction the rate never increases and
    stays in [0, 1]. *)
Theorem exploration_rate_decay (obs : list (list Q)) (acts : list Z)
    (lr dr decay : Q) (n : nat) :
  0 < decay -> decay <= 1 ->
  let self := QTable.__init__ obs acts lr dr decay in
  QTable.exploration_rate self = 1 /\
  (forall q, QTable.exploration_rate (snd (QTable.update_exploration_rate q)) =
             QTable.exploration_rate q * (1 - QTable.exploration_decay q)) /\
  QTable.exploration_rate (QTable.decay_n (S n) self)
    <= QTable.exploration_rate (QTable.decay_n n self) /\
  0 <= QTable.exploration_rate (QTable.decay_n n self) /\
  QTable.exploration_rate (QTable.decay_n n self) <= 1.
Proof.
  intros Hd0 Hd1 self.
  split; [reflexivity |]. split; [reflexivity |].
  assert (Hb : 0 <= QTable.exploration_rate (QTable.decay_n n self) /\
               QTable.exploration_rate (QTable.decay_n n self) <= 1).
  { apply decay_n_bounds; simpl; lra. }
  destruct Hb as [H0 H1]. repeat split; auto.
  rewrite decay_n_succ. cbn [QTable.update_exploration_rate snd
    QTable.set_exploration_rate QTable.exploration_rate].
  rewrite decay_n_exploration_decay.
  change (QTable.exploration_decay self) with decay. nra.
Qed.

Lemma exploration_rate_decay_witness :
  0 < 1 # 100 /\ 1 # 100 <= 1 /\
  let self := QTable.__init__ [[0; 1; 2]] [0%Z; 1%Z] (1 # 2) 1 (1 # 100) in
  QTable.exploration_rate self = 1 /\
  (forall q, QTable.exploration_rate (snd (QTable.update_exploration_rate q)) =
             QTable.exploration_rate q * (1 - QTable.exploration_decay q)) /\
  QTable.exploration_rate (QTable.decay_n 3 self)
    <= QTable.exploration_rate (QTable.decay_n 2 self) /\
  0 <= QTable.exploration_rate (QTable.decay_n 2 self) /\
  QTable.exploration_rate (QTable.decay_n 2 self) <= 1.
Proof.
  split; [reflexivity |]. split; [discriminate |].
  apply (exploration_rate_decay [[0; 1; 2]] [0%Z; 1%Z] (1 # 2) 1 (1 # 100) 2);
    [reflexivity | discriminate].
Defined.

(** ** Arguments out of domain *)

(** C9: when the state key has a factor that is not a value of its
    domain, or the action is not in the action set, the value lookup
    raises and so does [process_step], whatever its other arguments; a
    state key with such a factor makes [process_step] raise as the next
    state too.  Nothing is returned and nothing written. *)
Theorem out_of_domain_raises (self : QTable.QTable) (state : list Q)
    (action : Z) :
  QTable.well_formed self ->
  QTable.state_out_of_domain self state \/ ~ In action (QTable.actions self) ->
  (exists e, QTable._get_qvalue self state action = Raise e) /\
  (forall new_state reward, exists e,
     QTable.process_step state action new_state reward self = (Raise e, self)) /\
  (QTable.state_out_of_domain self state ->
   forall state0 action0 reward, exists e,
     QTable.process_step state0 action0 state reward self = (Raise e, self)).
Proof.
  intros Hwf H. split; [| split].
  - now apply get_qvalue_raises.
  - intros new_state reward. apply process_step_raises; auto. tauto.
  - intros Hout state0 action0 reward. apply process_step_raises; auto.
Qed.

Lemma out_of_domain_raises_witness :
  (QTable.state_out_of_domain QTable.example_table [5] \/
   ~ In 0%Z (QTable.actions QTable.example_table)) /\
  (exists e, QTable._get_qvalue QTable.example_table [5] 0%Z = Raise e) /\
  (forall new_state reward, exists e,
     QTable.process_step [5] 0%Z new_state reward QTable.example_table
     = (Raise e, QTable.example_table)) /\
  (QTable.state_out_of_domain QTable.example_table [5] ->
   forall state0 action0 reward, exists e,
     QTable.process_step state0 action0 [5] reward QTable.example_table
     = (Raise e, QTable.example_table)).
Proof.
  split; [left; exact example_state_out_of_domain |].
  apply (out_of_domain_raises QTable.example_table [5] 0%Z).
  - exact example_table_well_formed.
  - left. exact example_state_out_of_domain.
Defined.

(** The errors are those of the lookups: a KeyError for a value or an
    action that is not a key of its dict. *)
Example out_of_domain_example :
  QTable._get_qvalue QTable.example_table [5] 0%Z = Raise KeyError /\
  QTable._get_qvalue QTable.example_table [0] 7%Z = Raise KeyError /\
  fst (QTable.process_step [0] 0%Z [5] 1 QTable.example_table) = Raise KeyError.
Proof. repeat split. Qed.

(** C10: when the state, the action or the next state of
    [process_step] is out of domain, the call raises and the object it
    gives back is the one it was given: the table is unchanged.  More
    generally the object is unchanged whenever [process_step] raises,
    the assignment to the cell being its last step. *)
Theorem process_step_error_atomic (self : QTable.QTable) (state : list Q)
    (action : Z) (new_state : list Q) (reward : Q) :
  QTable.well_formed self ->
  QTable.state_out_of_domain self state \/ ~ In action (QTable.actions self) \/
  QTable.state_out_of_domain self new_state ->
  (exists e,
     QTable.process_step state action new_state reward self = (Raise e, self)) /\
  (forall s a s' r e,
     fst (QTable.process_step s a s' r self) = Raise e ->
     QTable._table (snd (QTable.process_step s a s' r self)) = QTable._table self).
Proof.
  intros Hwf H. split.
  - now apply process_step_raises.
  - intros s a s' r e He. now rewrite (process_step_error_unchanged _ _ _ _ _ _ He).
Qed.

Lemma process_step_error_atomic_witness :
  (QTable.state_out_of_domain QTable.example_table [0] \/
   ~ In 0%Z (QTable.actions QTable.example_table) \/
   QTable.state_out_of_domain QTable.example_table [5]) /\
  (exists e,
     QTable.process_step [0] 0%Z [5] 1 QTable.example_table
     = (Raise e, QTable.example_table)) /\
  (forall s a s' r e,
     fst (QTable.process_step s a s' r QTable.example_table) = Raise e ->
     QTable._table (snd (QTable.process_step s a s' r QTable.example_table))
     = QTable._table QTable.example_table).
Proof.
  split; [right; right; exact example_state_out_of_domain |].
  apply (process_step_error_atomic QTable.example_table [0] 0%Z [5] 1).
  - exact example_table_well_formed.
  - right. right. exact example_state_out_of_domain.
Defined.

(** * Further properties of the code *)

(** ** find_nearest on any list *)

(** In exact arithmetic first, where the loop always returns; the
    statement on binary64, where NaN has to be set aside, follows. *)

Lemma bracketed_In (ls : list Q) (target v : Q) :
  Cartpole.bracketed ls target v -> In v ls.
Proof.
  intros [[Hin _] | (i & a & b & Ha & Hb & _ & _ & Hv)]; auto.
  destruct (get_closer_cases target a b) as [Hab _].
  destruct (get_closer_cases target b a) as [Hba _].
  assert (In a ls) by (eapply nth_error_In; eauto).
  assert (In b ls) by (eapply nth_error_In; eauto).
  destruct Hv as [-> | ->];
    [destruct Hab as [-> | ->] | destruct Hba as [-> | ->]]; auto.
Qed.

Lemma find_nearest_returns_member (ls : list Q) (target : Q) :
  ls <> [] ->
  exists v, Cartpole.find_nearest ls target = Cartpole.Returns v /\ In v ls.
Proof.
  intros Hne.
  destruct (find_nearest_fuel_returns ls target (length ls) Hne (Nat.le_refl _))
    as (v & first & last_ & Hv & H0 & Hl & Hcases).
  exists v. split; auto.
  destruct Hcases as [[_ ->] | [(_ & _ & ->) | (_ & _ & Hb)]].
  - eapply nth_error_In; eauto.
  - eapply nth_error_In; eauto.
  - eapply bracketed_In; eauto.
Qed.

(** X1: on binary64, [find_nearest] raises IndexError on the empty list
    (from [ls[-1]]) whatever the target is; on a non-empty list without
    NaN, sorted or not, and a target that is not NaN it returns an
    element of the list. *)
Theorem find_nearest64_member_or_index_error (ls : list spec_float)
    (target : spec_float) :
  (ls = [] ->
     Cartpole64.find_nearest ls target = Cartpole64.Raises IndexError) /\
  (ls <> [] -> Cartpole64.numbers ls -> Cartpole64.is_nan target = false ->
     exists v, Cartpole64.find_nearest ls target = Cartpole64.Returns v /\
               In v ls).
Proof.
  split.
  - intros ->. reflexivity.
  - apply find_nearest64_member.
Qed.

Lemma find_nearest64_member_or_index_error_witness :
  Cartpole64.find_nearest [] (Cartpole64.float_of 1 0)
    = Cartpole64.Raises IndexError /\
  exists v,
    Cartpole64.find_nearest
      [Cartpole64.float_of 3 0; Cartpole64.float_of 1 0; Cartpole64.float_of 2 0]
      (Cartpole64.float_of 5 (-2)) = Cartpole64.Returns v /\
    In v [Cartpole64.float_of 3 0; Cartpole64.float_of 1 0; Cartpole64.float_of 2 0].
Proof.
  split.
  - apply (find_nearest64_member_or_index_error [] (Cartpole64.float_of 1 0)).
    reflexivity.
  - apply (find_nearest64_member_or_index_error
             [Cartpole64.float_of 3 0; Cartpole64.float_of 1 0;
              Cartpole64.float_of 2 0]
             (Cartpole64.float_of 5 (-2))).
    + discriminate.
    + repeat constructor.
    + reflexivity.
Defined.

(** ** find_nearest on a strictly increasing domain *)


(** The nearest-value property, for the proofs below. *)
Lemma find_nearest_closest (D : list Q) (t : Q) :
  D <> [] -> strictly_increasing D ->
  exists v, Cartpole.find_nearest D t = Cartpole.Returns v /\ In v D /\
    forall x, In x D -> Qabs (t - v) <= Qabs (t - x).
Proof.
  intros Hne Hs.
  destruct (find_nearest_fuel_returns D t (length D) Hne (Nat.le_refl _))
    as (v & first & last_ & Hv & H0 & Hl & Hcases).
  exists v. split; [exact Hv |].
  assert (Hbelow : forall x, In x D -> first <= x /\ x <= last_).
  { intros x Hx. apply In_nth_error in Hx. destruct Hx as [j Hj].
    assert (j < length D)%nat by (apply nth_error_Some; congruence).
    split.
    - apply (strictly_increasing_le D 0 j); auto. lia.
    - apply (strictly_increasing_le D j (length D - 1)); auto. lia. }
  destruct Hcases as [[Hle ->] | [(Hlt & Hle & ->) | (Hf & Hlt & Hb)]].
  - split; [eapply nth_error_In; eauto |].
    intros x Hx. apply Qabs_diff_below; auto. now apply Hbelow.
  - split; [eapply nth_error_In; eauto |].
    intros x Hx. apply Qabs_diff_above; auto. now apply Hbelow.
  - split; [eapply bracketed_In; eauto |].
    intros x Hx.
    destruct Hb as [[_ Heq] | (i & a & b & Ha & Hb & Hat & Htb & Hv')].
    + assert (E : t - v == 0) by lra. rewrite E. apply Qabs_nonneg.
    + assert (Hva : Qabs (t - v) <= Qabs (t - a) /\ Qabs (t - v) <= Qabs (t - b)).
      { destruct (get_closer_cases t a b) as (_ & H1 & H2).
        destruct (get_closer_cases t b a) as (_ & H3 & H4).
        destruct Hv' as [-> | ->]; auto. }
      destruct Hva as [Hva Hvb].
      apply In_nth_error in Hx. destruct Hx as [j Hj].
      destruct (le_lt_dec j i) as [Hji | Hji].
      * assert (x <= a) by (apply (strictly_increasing_le D j i); auto).
        apply Qle_trans with (Qabs (t - a)); auto.
        apply Qabs_diff_below; lra.
      * assert (b <= x) by (apply (strictly_increasing_le D (S i) j); auto).
        apply Qle_trans with (Qabs (t - b)); auto.
        apply Qabs_diff_above; lra.
Qed.




Lemma get_closer_target_eq (t1 t2 a b : Q) :
  t1 == t2 -> Cartpole.get_closer t1 a b = Cartpole.get_closer t2 a b.
Proof.
  intros H. unfold Cartpole.get_closer.
  assert (E : Qle_bool (Qabs (t1 - a)) (Qabs (t1 - b)) =
              Qle_bool (Qabs (t2 - a)) (Qabs (t2 - b))).
  { now rewrite H. }
  now rewrite E.
Qed.

(** Targets that are equal as numbers give the same result. *)
Lemma find_nearest_loop_target_eq (ls : list Q) (t1 t2 : Q) :
  t1 == t2 -> forall fuel start end_,
  Cartpole.find_nearest_loop fuel ls t1 start end_ =
  Cartpole.find_nearest_loop fuel ls t2 start end_.
Proof.
  intros H. induction fuel as [| fuel IH]; intros start end_; [reflexivity |].
  cbn [Cartpole.find_nearest_loop].
  destruct (start <? end_)%nat; auto.
  destruct (nth_error ls ((start + end_) / 2)) as [ls_mid |]; auto.
  assert (E1 : Qeq_bool ls_mid t1 = Qeq_bool ls_mid t2) by (now rewrite H).
  assert (E2 : Qltb ls_mid t1 = Qltb ls_mid t2) by (unfold Qltb; now rewrite H).
  rewrite E1, E2.
  destruct (Qeq_bool ls_mid t2); auto.
  destruct (Qltb ls_mid t2).
  - destruct (_ <? _)%nat; auto.
    destruct (nth_error ls _) as [ls_next |]; auto.
    assert (E3 : Qltb t1 ls_next = Qltb t2 ls_next) by (unfold Qltb; now rewrite H).
    rewrite E3, (get_closer_target_eq t1 t2 _ _ H), IH. reflexivity.
  - destruct (_ <? _)%nat; auto.
    destruct (nth_error ls _) as [ls_prev |]; auto.
    assert (E3 : Qltb ls_prev t1 = Qltb ls_prev t2) by (unfold Qltb; now rewrite H).
    rewrite E3, (get_closer_target_eq t1 t2 _ _ H), IH. reflexivity.
Qed.

Lemma find_nearest_target_eq (ls : list Q) (t1 t2 : Q) :
  t1 == t2 -> Cartpole.find_nearest ls t1 = Cartpole.find_nearest ls t2.
Proof.
  intros H. unfold Cartpole.find_nearest, Cartpole.find_nearest_fuel.
  destruct (py_last ls) as [ls_last |]; auto.
  assert (E1 : Qle_bool ls_last t1 = Qle_bool ls_last t2) by (now rewrite H).
  rewrite E1. destruct (Qle_bool ls_last t2); auto.
  destruct (py_nth ls 0) as [ls_first |]; auto.
  assert (E2 : Qle_bool t1 ls_first = Qle_bool t2 ls_first) by (now rewrite H).
  rewrite E2. destruct (Qle_bool t2 ls_first); auto.
  now apply find_nearest_loop_target_eq.
Qed.

(** X3: on a strictly increasing domain [find_nearest] keeps the order
    of its targets: a larger target never gets a smaller value. *)
Theorem find_nearest_monotone (D : list Q) (t1 t2 v1 v2 : Q) :
  strictly_increasing D -> t1 <= t2 ->
  Cartpole.find_nearest D t1 = Cartpole.Returns v1 ->
  Cartpole.find_nearest D t2 = Cartpole.Returns v2 ->
  v1 <= v2.
Proof.
  intros Hs Hle H1 H2.
  assert (Hne : D <> []) by (intros ->; discriminate).
  destruct (find_nearest_closest D t1 Hne Hs) as (w1 & Hw1 & Hin1 & Hmin1).
  destruct (find_nearest_closest D t2 Hne Hs) as (w2 & Hw2 & Hin2 & Hmin2).
  rewrite H1 in Hw1. injection Hw1 as <-.
  rewrite H2 in Hw2. injection Hw2 as <-.
  destruct (Qlt_le_dec v2 v1) as [Hlt | Hge]; auto.
  exfalso.
  specialize (Hmin1 v2 Hin2). specialize (Hmin2 v1 Hin1).
  assert (Heq : t1 == t2).
  { revert Hmin1 Hmin2.
    apply (Qabs_case (t1 - v1)); intros A1;
      apply (Qabs_case (t1 - v2)); intros A2;
      apply (Qabs_case (t2 - v2)); intros A3;
      apply (Qabs_case (t2 - v1)); intros A4 B1 B2; lra. }
  rewrite (find_nearest_target_eq D t1 t2 Heq) in H1.
  rewrite H1 in H2. injection H2 as E. rewrite E in Hlt. lra.
Qed.

Lemma find_nearest_monotone_witness :
  strictly_increasing [0; 1; 2; 3] /\ 12 # 10 <= 26 # 10 /\ 1 <= 3.
Proof.
  split; [apply strictly_increasingb_sound; reflexivity |].
  split; [discriminate |].
  apply (find_nearest_monotone [0; 1; 2; 3] (12 # 10) (26 # 10) 1 3);
    [apply strictly_increasingb_sound; reflexivity | discriminate
    | reflexivity | reflexivity].
Defined.

(** ** discretize_observation_space with too few steps *)

Lemma discretize_from_missing_step (steps : list Q) (bs : list (Q * Q)) :
  forall idx acc,
  (idx <= length steps)%nat -> (length steps < idx + length bs)%nat ->
  (forall step, In step steps -> ~ step == 0) ->
  Cartpole.discretize_from idx bs steps acc = Raise IndexError.
Proof.
  induction bs as [| b rest IH]; intros idx acc Hidx Hlen Hnz.
  - simpl in Hlen. lia.
  - cbn [Cartpole.discretize_from]. unfold py_nth.
    destruct (nth_error steps idx) as [step |] eqn:Es; [| reflexivity].
    assert (Hi : (idx < length steps)%nat) by (apply nth_error_Some; congruence).
    unfold Cartpole.numpy_arange.
    destruct (Qeq_bool step 0) eqn:E.
    { apply Qeq_bool_iff in E. exfalso. apply (Hnz step); auto.
      eapply nth_error_In; eauto. }
    apply IH; auto. simpl in Hlen. lia.
Qed.

(** X5: with fewer steps than factors (and no zero step among them),
    [discretize_observation_space] raises an IndexError, from
    [steps[idx]] at the first factor without a step. *)
Theorem discretize_observation_space_missing_step
    (bounds : list (Q * Q)) (steps : list Q) :
  (length steps < length bounds)%nat ->
  (forall step, In step steps -> ~ step == 0) ->
  Cartpole.discretize_observation_space bounds steps = Raise IndexError.
Proof.
  intros Hlen Hnz. apply discretize_from_missing_step; auto; lia.
Qed.

Lemma discretize_observation_space_missing_step_witness :
  Cartpole.discretize_observation_space [(0, 1); (-1, 1)] [3 # 10]
  = Raise IndexError.
Proof.
  apply discretize_observation_space_missing_step.
  - simpl. lia.
  - intros step [<- | []]. discriminate.
Defined.

(** ** discretize_state *)

Section DiscretizeState.
Import Cartpole.

Variable observation_space : list (list Q).

Lemma discretize_state_from_index_error :
  forall state idx acc j, (j < length state)%nat ->
  nth_error observation_space (idx + j) = None \/
  nth_error observation_space (idx + j) = Some [] ->
  discretize_state_from idx state observation_space acc = RaisesIn IndexError.
Proof.
  induction state as [| x rest IH]; intros idx acc j Hj Hbad; [simpl in Hj; lia |].
  cbn [discretize_state_from]. unfold py_nth.
  destruct (nth_error observation_space idx) as [dom |] eqn:Ed; [| reflexivity].
  destruct dom as [| d0 dtl]; [reflexivity |].
  destruct (find_nearest_returns_member (d0 :: dtl) x) as (v & Hv & _);
    [discriminate |].
  rewrite Hv. destruct j as [| j].
  - rewrite Nat.add_0_r, Ed in Hbad. destruct Hbad; discriminate.
  - apply (IH (S idx) _ j); [simpl in Hj; lia |].
    now replace (S idx + j)%nat with (idx + S j)%nat by lia.
Qed.


Hypothesis Hsorted : Forall strictly_increasing observation_space.


End DiscretizeState.

(** X6: on binary64, over non-empty domains without NaN,
    [discretize_state] of a state with at most as many factors as there
    are domains returns a tuple with one component per factor: for a
    factor that is not NaN a value of the domain of that factor, for a
    NaN factor [None]. *)
Theorem discretize_state64_components (state : list spec_float)
    (observation_space : list (list spec_float)) :
  Forall (fun d => d <> [] /\ Cartpole64.numbers d) observation_space ->
  (length state <= length observation_space)%nat ->
  exists key,
    Cartpole64.discretize_state state observation_space
      = Cartpole64.ReturnsTuple key /\
    length key = length state /\
    forall j x dom,
      nth_error state j = Some x -> nth_error observation_space j = Some dom ->
      (Cartpole64.is_nan x = false ->
         exists v, nth_error key j = Some (Some v) /\ In v dom) /\
      (Cartpole64.is_nan x = true -> nth_error key j = Some None).
Proof.
  intros Hall Hlen.
  destruct (discretize_state64_from_ok observation_space Hall state 0 [])
    as (key & Hkey & Hl & Hnth); [simpl; lia |].
  exists key. split; [exact Hkey | split; [exact Hl | exact Hnth]].
Qed.

Lemma discretize_state64_components_witness :
  exists key,
    Cartpole64.discretize_state
      [Cartpole64.float_of 5 (-2); Cartpole64.nan]
      [[Cartpole64.float_of 0 0; Cartpole64.float_of 1 0; Cartpole64.float_of 2 0];
       [Cartpole64.float_of (-1) 0; Cartpole64.float_of 1 0]]
      = Cartpole64.ReturnsTuple key /\
    length key = length [Cartpole64.float_of 5 (-2); Cartpole64.nan] /\
    forall j x dom,
      nth_error [Cartpole64.float_of 5 (-2); Cartpole64.nan] j = Some x ->
      nth_error
        [[Cartpole64.float_of 0 0; Cartpole64.float_of 1 0; Cartpole64.float_of 2 0];
         [Cartpole64.float_of (-1) 0; Cartpole64.float_of 1 0]] j = Some dom ->
      (Cartpole64.is_nan x = false ->
         exists v, nth_error key j = Some (Some v) /\ In v dom) /\
      (Cartpole64.is_nan x = true -> nth_error key j = Some None).
Proof.
  apply discretize_state64_components.
  - repeat constructor; discriminate.
  - simpl. lia.
Defined.

Example discretize_state64_example :
  Cartpole64.discretize_state
    [Cartpole64.float_of 5 (-2); Cartpole64.nan]
    [[Cartpole64.float_of 0 0; Cartpole64.float_of 1 0; Cartpole64.float_of 2 0];
     [Cartpole64.float_of (-1) 0; Cartpole64.float_of 1 0]]
  = Cartpole64.ReturnsTuple [Some (Cartpole64.float_of 1 0); None].
Proof. reflexivity. Qed.

(** X7: [discretize_state] raises an IndexError when the state has more
    factors than there are domains (from [observation_space[idx]]) or
    when the domain of one of its factors is empty (from [ls[-1]] in
    [find_nearest]), whatever the other domains hold. *)
Theorem discretize_state_index_error (state : list Q)
    (observation_space : list (list Q)) :
  (length observation_space < length state)%nat \/
  (exists j, (j < length state)%nat /\ nth_error observation_space j = Some []) ->
  Cartpole.discretize_state state observation_space
    = Cartpole.RaisesIn IndexError.
Proof.
  intros [Hlen | (j & Hj & Hd)].
  - apply (discretize_state_from_index_error observation_space state 0 []
             (length observation_space)); auto.
    left. now apply nth_error_None.
  - apply (discretize_state_from_index_error observation_space state 0 [] j); auto.
Qed.

Lemma discretize_state_index_error_witness :
  Cartpole.discretize_state [1; 2] [[0; 1; 2]] = Cartpole.RaisesIn IndexError /\
  Cartpole.discretize_state [1; 2] [[0; 1; 2]; []] = Cartpole.RaisesIn IndexError.
Proof.
  split.
  - apply discretize_state_index_error. left. simpl. lia.
  - apply discretize_state_index_error. right. exists 1%nat. split; [simpl; lia | reflexivity].
Defined.



(** ** The table after construction *)

Lemma get_path_zeros (shape : list nat) :
  forall p x, Numpy.get_path (Numpy.zeros shape) p = Some (Numpy.Scalar x) ->
  x = 0.
Proof.
  induction shape as [| n rest IH]; intros p x H.
  - destruct p; simpl in H; [| discriminate]. now injection H as <-.
  - destruct p as [| i p]; simpl in H; [discriminate |].
    destruct (nth_error (repeat (Numpy.zeros rest) n) i) as [sub |] eqn:E;
      [| discriminate].
    apply nth_error_In, repeat_spec in E. subst sub. eauto.
Qed.

(** X10: [__init__] over an action list without repeats gives a
    well-formed table whose cells are all zero: the value of every
    in-domain state and action is 0. *)
Theorem init_all_zero (obs : list (list Q)) (acts : list Z)
    (lr dr decay : Q) (state : list Q) (a : Z) :
  NoDup acts -> Forall2 QTable.in_domain state obs -> In a acts ->
  QTable.well_formed (QTable.__init__ obs acts lr dr decay) /\
  QTable._get_qvalue (QTable.__init__ obs acts lr dr decay) state a
    = Ok (Numpy.Scalar 0) /\
  (forall p x,
     Numpy.get_path (QTable._table (QTable.__init__ obs acts lr dr decay)) p
       = Some (Numpy.Scalar x) -> x = 0).
Proof.
  intros Hnd Hin Ha.
  pose proof (init_well_formed obs acts lr dr decay Hnd) as Hwf.
  split; [exact Hwf |]. split.
  - apply In_nth_error in Ha. destruct Ha as [i Hi].
    destruct (get_qvalue_ok _ Hwf state a i Hin Hi)
      as (path & q & _ & _ & _ & Hq & Hget).
    simpl in Hget. apply get_path_zeros in Hget. now subst q.
  - intros p x H. simpl in H. now apply get_path_zeros in H.
Qed.

Lemma init_all_zero_witness :
  QTable.well_formed (QTable.__init__ [[0; 1; 2]] [0%Z; 1%Z] (1 # 2) 1 (1 # 100)) /\
  QTable._get_qvalue
    (QTable.__init__ [[0; 1; 2]] [0%Z; 1%Z] (1 # 2) 1 (1 # 100)) [2] 1%Z
    = Ok (Numpy.Scalar 0) /\
  (forall p x,
     Numpy.get_path
       (QTable._table (QTable.__init__ [[0; 1; 2]] [0%Z; 1%Z] (1 # 2) 1 (1 # 100))) p
       = Some (Numpy.Scalar x) -> x = 0).
Proof.
  apply (init_all_zero [[0; 1; 2]] [0%Z; 1%Z] (1 # 2) 1 (1 # 100) [2] 1%Z).
  - repeat constructor; simpl; intuition discriminate.
  - constructor; [| constructor]. exists 2. split; [simpl; auto | reflexivity].
  - simpl. auto.
Defined.

(** X11: when all actions have the same value at an in-domain state,
    [_get_max_action] returns the first action of the action set, with
    that value. *)
Theorem get_max_action_all_equal (self : QTable.QTable) (state : list Q)
    (a0 : Z) (rest : list Z) (c : Q) :
  QTable.well_formed self -> QTable.state_in_domain self state ->
  QTable.actions self = a0 :: rest ->
  (forall a, In a (QTable.actions self) ->
     exists v, QTable._get_qvalue self state a = Ok (Numpy.Scalar v) /\ v == c) ->
  exists m, QTable._get_max_action self state = Ok (a0, m) /\ m == c.
Proof.
  intros Hwf Hin Hacts Hall.
  assert (Hne : QTable.actions self <> []) by (rewrite Hacts; discriminate).
  destruct (get_max_action_ok self Hwf state Hin Hne)
    as (i & a & m & Hbest & Hi & Hm & _ & Hfirst).
  assert (Hmc : m == c).
  { destruct (Hall a) as (v & Hv & Hvc); [eapply nth_error_In; eauto |].
    rewrite Hm in Hv. injection Hv as <-. exact Hvc. }
  destruct i as [| i].
  - rewrite Hacts in Hi. simpl in Hi. injection Hi as <-. eauto.
  - exfalso.
    assert (H0 : nth_error (QTable.actions self) 0 = Some a0)
      by (rewrite Hacts; reflexivity).
    destruct (Hfirst 0%nat a0) as (v & Hv & Hlt); [lia | exact H0 |].
    destruct (Hall a0) as (v' & Hv' & Hvc); [rewrite Hacts; left; reflexivity |].
    rewrite Hv in Hv'. injection Hv' as <-. lra.
Qed.

Lemma get_max_action_all_equal_witness :
  exists m, QTable._get_max_action QTable.example_table [2] = Ok (0%Z, m) /\ m == 0.
Proof.
  apply (get_max_action_all_equal QTable.example_table [2] 0%Z [1%Z] 0).
  - exact example_table_well_formed.
  - apply example_state_in_domain. simpl. auto.
  - reflexivity.
  - intros a [<- | [<- | []]]; exists 0; split; reflexivity.
Defined.

(** ** decide_action *)

(** X12: when the draw [r] is at most the exploration rate,
    [decide_action] returns an action of the (non-empty) action set, the
    one [random.choice] draws, without looking at the state: it does so
    for every state, in the domains or not.  On an empty action set it
    raises an IndexError. *)
Theorem decide_action_explores (r : Q) (k : nat) (self : QTable.QTable)
    (state : list Q) :
  r <= QTable.exploration_rate self ->
  (QTable.actions self = [] /\
   QTable.decide_action r k self state = Raise IndexError) \/
  (exists a,
     QTable.decide_action r k self state = Ok a /\
     In a (QTable.actions self) /\
     nth_error (QTable.actions self) (k mod length (QTable.actions self))
       = Some a).
Proof.
  intros Hr. unfold QTable.decide_action.
  apply Qle_bool_iff in Hr. rewrite Hr.
  destruct (QTable.actions self) as [| a0 rest] eqn:E; [left; auto |].
  right. unfold QTable.random_choice, py_nth.
  destruct (nth_error (a0 :: rest) (k mod length (a0 :: rest))) as [a |] eqn:Ea.
  - exists a. repeat split. eapply nth_error_In; eauto.
  - apply nth_error_None in Ea.
    pose proof (Nat.mod_upper_bound k (length (a0 :: rest))) as Hb.
    simpl in Hb, Ea. lia.
Qed.

Lemma decide_action_explores_witness :
  1 # 2 <= QTable.exploration_rate QTable.example_table /\
  ((QTable.actions QTable.example_table = [] /\
    QTable.decide_action (1 # 2) 5 QTable.example_table [7] = Raise IndexError) \/
   (exists a,
      QTable.decide_action (1 # 2) 5 QTable.example_table [7] = Ok a /\
      In a (QTable.actions QTable.example_table) /\
      nth_error (QTable.actions QTable.example_table)
        (5 mod length (QTable.actions QTable.example_table)) = Some a)).
Proof.
  split; [discriminate |].
  apply (decide_action_explores (1 # 2) 5 QTable.example_table [7]).
  discriminate.
Defined.

(** X13: when the draw [r] is above the exploration rate,
    [decide_action] on an in-domain state returns the greedy action:
    the action [_get_max_action] returns, whose value is the maximum
    over all actions at the state. *)
Theorem decide_action_exploits (r : Q) (k : nat) (self : QTable.QTable)
    (state : list Q) :
  QTable.well_formed self -> QTable.state_in_domain self state ->
  QTable.actions self <> [] ->
  QTable.exploration_rate self < r ->
  exists a m,
    QTable.decide_action r k self state = Ok a /\
    QTable._get_max_action self state = Ok (a, m) /\
    In a (QTable.actions self) /\
    QTable.max_over_actions self state m /\
    QTable._get_qvalue self state a = Ok (Numpy.Scalar m).
Proof.
  intros Hwf Hin Hne Hr. unfold QTable.decide_action.
  apply Qle_bool_false in Hr. rewrite Hr.
  destruct (get_max_action_ok self Hwf state Hin Hne)
    as (i & a & m & Hbest & Hi & Hm & Hmax & _).
  exists a, m. rewrite Hbest. repeat split; auto.
  - eapply nth_error_In; eauto.
  - exists a. split; auto. eapply nth_error_In; eauto.
Qed.

Lemma decide_action_exploits_witness :
  QTable.exploration_rate
    (QTable.set_exploration_rate (1 # 4) QTable.example_table) < 1 # 2 /\
  exists a m,
    QTable.decide_action (1 # 2) 5
      (QTable.set_exploration_rate (1 # 4) QTable.example_table) [1] = Ok a /\
    QTable._get_max_action
      (QTable.set_exploration_rate (1 # 4) QTable.example_table) [1] = Ok (a, m) /\
    In a (QTable.actions
            (QTable.set_exploration_rate (1 # 4) QTable.example_table)) /\
    QTable.max_over_actions
      (QTable.set_exploration_rate (1 # 4) QTable.example_table) [1] m /\
    QTable._get_qvalue
      (QTable.set_exploration_rate (1 # 4) QTable.example_table) [1] a
      = Ok (Numpy.Scalar m).
Proof.
  split; [reflexivity |].
  apply (decide_action_exploits (1 # 2) 5
           (QTable.set_exploration_rate (1 # 4) QTable.example_table) [1]).
  - destruct example_table_well_formed as [H1 H2 H3 H4]. split; assumption.
  - apply example_state_in_domain. simpl. auto.
  - discriminate.
  - reflexivity.
Defined.

(** X14: when the draw [r] is above the exploration rate and the state
    has a factor that is not a value of its domain, [decide_action]
    raises: only the exploitation branch resolves the state. *)
Theorem decide_action_out_of_domain (r : Q) (k : nat) (self : QTable.QTable)
    (state : list Q) :
  QTable.well_formed self -> QTable.state_out_of_domain self state ->
  QTable.exploration_rate self < r ->
  exists e, QTable.decide_action r k self state = Raise e.
Proof.
  intros Hwf Hout Hr. unfold QTable.decide_action.
  apply Qle_bool_false in Hr. rewrite Hr.
  destruct (get_max_action_raises self Hwf state Hout) as [e ->]. eauto.
Qed.

Lemma decide_action_out_of_domain_witness :
  exists e,
    QTable.decide_action (1 # 2) 5
      (QTable.set_exploration_rate (1 # 4) QTable.example_table) [5] = Raise e.
Proof.
  apply decide_action_out_of_domain.
  - destruct example_table_well_formed as [H1 H2 H3 H4]. split; assumption.
  - exact example_state_out_of_domain.
  - reflexivity.
Defined.

(** ** The two methods that assign *)

Section Frames.
Import Numpy QTable.

Lemma drill_set_exploration_rate (r : Q) (self : QTable) :
  forall state idx dim,
  drill (set_exploration_rate r self) idx state dim = drill self idx state dim.
Proof.
  induction state as [| x rest IH]; intros idx dim; [reflexivity |].
  cbn [drill set_exploration_rate _states_idxs].
  destruct (py_nth (_states_idxs self) idx); auto.
  destruct (dict_get Qeq_bool x a); auto.
  destruct (getitem (v_data dim) a0); auto.
Qed.

Lemma get_qvalue_set_exploration_rate (r : Q) (self : QTable)
    (state : State) (a : Action) :
  _get_qvalue (set_exploration_rate r self) state a = _get_qvalue self state a.
Proof.
  unfold _get_qvalue, _get_state_values.
  now rewrite drill_set_exploration_rate.
Qed.

Lemma get_max_action_set_exploration_rate (r : Q) (self : QTable)
    (state : State) :
  _get_max_action (set_exploration_rate r self) state
  = _get_max_action self state.
Proof.
  unfold _get_max_action, _get_state_values.
  now rewrite drill_set_exploration_rate.
Qed.

Lemma process_step_set_exploration_rate (r : Q) (self : QTable)
    (state : State) (a : Action) (new_state : State) (reward : Q) :
  process_step state a new_state reward (set_exploration_rate r self) =
  (fst (process_step state a new_state reward self),
   set_exploration_rate r (snd (process_step state a new_state reward self))).
Proof.
  unfold process_step, _update_qvalue.
  rewrite get_qvalue_set_exploration_rate, get_max_action_set_exploration_rate.
  unfold _get_state_values. rewrite drill_set_exploration_rate.
  cbn [set_exploration_rate _table _actions_idxs learning_rate discount_rate].
  repeat match goal with
  | |- context [match ?x with Ok _ => _ | Raise _ => _ end] => destruct x
  end; reflexivity.
Qed.

Lemma process_step_rates (self : QTable)
    (state : State) (a : Action) (new_state : State) (reward : Q) :
  exploration_rate (snd (process_step state a new_state reward self))
    = exploration_rate self /\
  exploration_decay (snd (process_step state a new_state reward self))
    = exploration_decay self.
Proof.
  unfold process_step, _update_qvalue.
  repeat match goal with
  | |- context [match ?x with Ok _ => _ | Raise _ => _ end] => destruct x
  end; split; reflexivity.
Qed.

End Frames.

(** X16: [process_step] and [update_exploration_rate] commute: a step
    after a decay has the outcome of the step before it and leaves the
    same object, for all arguments, in the domains or not. *)
Theorem process_step_update_commute (self : QTable.QTable)
    (state : list Q) (a : Z) (new_state : list Q) (reward : Q) :
  QTable.process_step state a new_state reward
    (snd (QTable.update_exploration_rate self)) =
  (fst (QTable.process_step state a new_state reward self),
   snd (QTable.update_exploration_rate
          (snd (QTable.process_step state a new_state reward self)))).
Proof.
  cbn [QTable.update_exploration_rate snd].
  rewrite process_step_set_exploration_rate.
  destruct (process_step_rates self state a new_state reward) as [-> ->].
  reflexivity.
Qed.


Section Writes.
Import Numpy QTable.

Variable self : QTable.
Hypothesis Hwf : well_formed self.

Lemma get_qvalue_after_set (state : State) (a : Action) (i : nat)
    (path : list nat) (old v : Q) :
  state_in_domain self state -> nth_error (actions self) i = Some a ->
  key_indices (_states_idxs self) state = Ok path ->
  length path = length (observation_space self) ->
  get_path (_table self) (path ++ [i]) = Some (Scalar old) ->
  well_formed (set_table (set_path (_table self) (path ++ [i]) (Scalar v)) self) /\
  _get_qvalue (set_table (set_path (_table self) (path ++ [i]) (Scalar v)) self)
    state a = Ok (Scalar v).
Proof.
  intros Hin Hi Hkey Hlen Hget.
  set (self' := set_table (set_path (_table self) (path ++ [i]) (Scalar v)) self).
  assert (Hwf' : well_formed self').
  { apply (set_table_well_formed self _ old); auto.
    rewrite length_app. simpl. lia. }
  split; [exact Hwf' |].
  destruct (get_qvalue_ok self' Hwf' state a i Hin Hi)
    as (path' & q & Hkey' & _ & _ & Hq & Hget').
  change (_states_idxs self') with (_states_idxs self) in Hkey'.
  rewrite Hkey in Hkey'. injection Hkey' as <-.
  unfold self' in Hget'. cbn [_table set_table] in Hget'.
  rewrite (get_set_path_same _ _ _ _ Hget) in Hget'.
  injection Hget' as <-. exact Hq.
Qed.

Lemma update_qvalue_ok (state : State) (a : Action) (i : nat) (v : Q) :
  state_in_domain self state -> nth_error (actions self) i = Some a ->
  exists path old,
    key_indices (_states_idxs self) state = Ok path /\
    length path = length (observation_space self) /\
    get_path (_table self) (path ++ [i]) = Some (Scalar old) /\
    _update_qvalue state a (Scalar v) self =
      (Ok tt, set_table (set_path (_table self) (path ++ [i]) (Scalar v)) self).
Proof.
  intros Hin Hi.
  destruct (get_qvalue_ok self Hwf state a i Hin Hi)
    as (path & old & Hkey & Hlen & _ & _ & Hget).
  exists path, old. repeat split; auto.
  unfold _update_qvalue.
  destruct (get_state_values_ok self Hwf state Hin)
    as (path' & items & qs & Hkey' & _ & Hview & Hrow & _ & _ & Hnth).
  rewrite Hkey in Hkey'. injection Hkey' as <-.
  rewrite Hview.
  assert (Hidx : dict_get Z.eqb a (_actions_idxs self) = Ok i).
  { destruct Hwf as [_ Hact _ Hnd]. rewrite Hact. now apply index_of_action. }
  rewrite Hidx. cbn [v_data v_path getitem]. unfold py_nth.
  rewrite (get_path_app _ path [i] _ Hrow) in Hget. simpl in Hget.
  destruct (nth_error items i) as [cell |]; [| discriminate].
  injection Hget as ->. reflexivity.
Qed.

End Writes.

(** X18: what [_update_qvalue] writes, [_get_qvalue] reads: for an
    in-domain state and action the update returns normally, the lookup
    of the same pair then gives the written number, and the object is
    still well formed. *)
Theorem update_then_get (self : QTable.QTable) (state : list Q) (a : Z)
    (v : Q) :
  QTable.well_formed self -> QTable.state_in_domain self state ->
  In a (QTable.actions self) ->
  exists self',
    QTable._update_qvalue state a (Numpy.Scalar v) self = (Ok tt, self') /\
    QTable._get_qvalue self' state a = Ok (Numpy.Scalar v) /\
    QTable.well_formed self'.
Proof.
  intros Hwf Hin Ha. apply In_nth_error in Ha. destruct Ha as [i Hi].
  destruct (update_qvalue_ok self Hwf state a i v Hin Hi)
    as (path & old & Hkey & Hlen & Hget & Hupd).
  destruct (get_qvalue_after_set self Hwf state a i path old v Hin Hi Hkey Hlen Hget)
    as [Hwf' Hq].
  eexists. split; [exact Hupd | split; [exact Hq | exact Hwf']].
Qed.

Lemma update_then_get_witness :
  exists self',
    QTable._update_qvalue [2] 1%Z (Numpy.Scalar (7 # 2)) QTable.example_table
      = (Ok tt, self') /\
    QTable._get_qvalue self' [2] 1%Z = Ok (Numpy.Scalar (7 # 2)) /\
    QTable.well_formed self'.
Proof.
  apply (update_then_get QTable.example_table [2] 1%Z (7 # 2)).
  - exact example_table_well_formed.
  - apply example_state_in_domain. simpl. auto.
  - simpl. auto.
Defined.

(** X19: [process_step] with in-domain arguments returns normally and
    keeps the object well formed, with the same domains, actions and
    rates: the table keeps its shape, and a following call with
    in-domain arguments returns normally too. *)
Theorem process_step_keeps_well_formed (self : QTable.QTable)
    (state : list Q) (a : Z) (new_state : list Q) (reward : Q) :
  QTable.well_formed self ->
  QTable.state_in_domain self state -> In a (QTable.actions self) ->
  QTable.state_in_domain self new_state ->
  exists self',
    QTable.process_step state a new_state reward self = (Ok tt, self') /\
    QTable.well_formed self' /\
    QTable.observation_space self' = QTable.observation_space self /\
    QTable.actions self' = QTable.actions self /\
    QTable.exploration_rate self' = QTable.exploration_rate self /\
    (forall s b s' r,
       QTable.state_in_domain self s -> In b (QTable.actions self) ->
       QTable.state_in_domain self s' ->
       fst (QTable.process_step s b s' r self') = Ok tt).
Proof.
  intros Hwf Hin Ha Hin'.
  pose proof (process_step_well_formed self Hwf state a new_state reward Hin Ha Hin')
    as Hwf'.
  apply In_nth_error in Ha. destruct Ha as [i Hi].
  destruct (process_step_ok self Hwf state a i new_state reward Hin Hi Hin')
    as (path & old & m & _ & _ & _ & _ & _ & Hstep).
  rewrite Hstep in Hwf'. cbn [snd] in Hwf'.
  eexists. split; [exact Hstep |]. split; [exact Hwf' |].
  repeat split.
  intros s b s' r Hs Hb Hs'.
  apply In_nth_error in Hb. destruct Hb as [j Hj].
  match goal with |- fst (QTable.process_step _ _ _ _ ?q) = _ =>
    destruct (process_step_ok q Hwf' s b j s' r Hs Hj Hs')
      as (p2 & o2 & m2 & _ & _ & _ & _ & _ & ->)
  end.
  reflexivity.
Qed.

Lemma process_step_keeps_well_formed_witness :
  exists self',
    QTable.process_step [0] 0%Z [1] 1 QTable.example_table = (Ok tt, self') /\
    QTable.well_formed self' /\
    QTable.observation_space self' = QTable.observation_space QTable.example_table /\
    QTable.actions self' = QTable.actions QTable.example_table /\
    QTable.exploration_rate self' = QTable.exploration_rate QTable.example_table /\
    (forall s b s' r,
       QTable.state_in_domain QTable.example_table s ->
       In b (QTable.actions QTable.example_table) ->
       QTable.state_in_domain QTable.example_table s' ->
       fst (QTable.process_step s b s' r self') = Ok tt).
Proof.
  apply (process_step_keeps_well_formed QTable.example_table [0] 0%Z [1] 1).
  - exact example_table_well_formed.
  - apply example_state_in_domain. simpl. auto.
  - simpl. auto.
  - apply example_state_in_domain. simpl. auto.
Defined.

(** ** Keys of the wrong length, and an empty action set *)

Lemma key_indices_too_long (idxs : list (QTable.dict Q)) :
  forall state, (length idxs < length state)%nat ->
  exists e, QTable.key_indices idxs state = Raise e.
Proof.
  induction idxs as [| d ds IH]; intros state Hlen.
  - destruct state; [simpl in Hlen; lia | simpl; eauto].
  - destruct state as [| x rest]; [simpl in Hlen; lia |].
    cbn [QTable.key_indices].
    destruct (QTable.dict_get Qeq_bool x d); eauto.
    destruct (IH rest) as [e ->]; [simpl in Hlen; lia | eauto].
Qed.

(** X21: a state key with more factors than the table has domains is
    rejected: the value lookup raises, and so does [process_step] with
    such a key as the state or as the next state, leaving the object as
    it was. *)
Theorem too_long_state_raises (self : QTable.QTable) (state : list Q) :
  QTable.well_formed self ->
  (length (QTable.observation_space self) < length state)%nat ->
  (forall a, exists e, QTable._get_qvalue self state a = Raise e) /\
  (forall a s' r, exists e,
     QTable.process_step state a s' r self = (Raise e, self)) /\
  (forall s a r, exists e,
     QTable.process_step s a state r self = (Raise e, self)).
Proof.
  intros Hwf Hlen.
  assert (Hraise : exists e, QTable._get_state_values self state = Raise e).
  { destruct (key_indices_too_long (QTable._states_idxs self) state) as [e He].
    - destruct Hwf as [Hidx _ _ _]. now rewrite Hidx, length_map.
    - now apply (drill_raises self state 0 _ e). }
  destruct Hraise as [e0 He0].
  assert (Hq : forall a, QTable._get_qvalue self state a = Raise e0).
  { intros a. unfold QTable._get_qvalue. now rewrite He0. }
  split; [| split].
  - intros a. rewrite Hq. eauto.
  - intros a s' r. unfold QTable.process_step. rewrite Hq. eauto.
  - intros s a r. unfold QTable.process_step.
    destruct (QTable._get_qvalue self s a); eauto.
    unfold QTable._get_max_action. rewrite He0. eauto.
Qed.

Lemma too_long_state_raises_witness :
  (forall a, exists e,
     QTable._get_qvalue QTable.example_table [0; 1] a = Raise e) /\
  (forall a s' r, exists e,
     QTable.process_step [0; 1] a s' r QTable.example_table
     = (Raise e, QTable.example_table)) /\
  (forall s a r, exists e,
     QTable.process_step s a [0; 1] r QTable.example_table
     = (Raise e, QTable.example_table)).
Proof.
  apply (too_long_state_raises QTable.example_table [0; 1]).
  - exact example_table_well_formed.
  - simpl. lia.
Defined.

(** X22: over an empty action set [_get_max_action] raises a
    ValueError at every in-domain state (the argmax of an empty row),
    and so does [decide_action] when it exploits. *)
Theorem get_max_action_no_actions (self : QTable.QTable) (state : list Q) :
  QTable.well_formed self -> QTable.state_in_domain self state ->
  QTable.actions self = [] ->
  QTable._get_max_action self state = Raise ValueError /\
  (forall r k, QTable.exploration_rate self < r ->
     QTable.decide_action r k self state = Raise ValueError).
Proof.
  intros Hwf Hin Hact.
  destruct (get_state_values_ok self Hwf state Hin)
    as (path & items & qs & _ & _ & Hview & _ & Hqs & Hlq & _).
  rewrite Hact in Hlq. destruct qs; [| discriminate].
  assert (H : QTable._get_max_action self state = Raise ValueError).
  { unfold QTable._get_max_action. rewrite Hview. cbn [QTable.v_data].
    now rewrite Hqs. }
  split; [exact H |].
  intros r k Hr. unfold QTable.decide_action.
  apply Qle_bool_false in Hr. now rewrite Hr, H.
Qed.

Lemma get_max_action_no_actions_witness :
  QTable._get_max_action (QTable.__init__ [[0; 1; 2]] [] (1 # 2) 1 (1 # 100)) [1]
    = Raise ValueError /\
  (forall r k,
     QTable.exploration_rate (QTable.__init__ [[0; 1; 2]] [] (1 # 2) 1 (1 # 100)) < r ->
     QTable.decide_action r k
       (QTable.__init__ [[0; 1; 2]] [] (1 # 2) 1 (1 # 100)) [1] = Raise ValueError).
Proof.
  apply (get_max_action_no_actions
           (QTable.__init__ [[0; 1; 2]] [] (1 # 2) 1 (1 # 100)) [1]).
  - apply init_well_formed. constructor.
  - constructor; [| constructor]. exists 1. split; [simpl; auto | reflexivity].
  - reflexivity.
Defined.
